(** * picotron: the training driver [train.py]

    A shallow embedding of the 4D-parallel training driver: the
    gradient-accumulation step [train_step], the startup assertions, the
    training loop with its logging, checkpointing and reset hook, and the
    collaborators the driver calls (model, data loader, transport,
    checkpoint store), which are kept opaque behind an interface.

    The driver mutates the model and the data loader in place; here they are
    passed and returned explicitly.  Every call the driver makes to a
    collaborator is recorded, in program order, as an [event].  The trace is
    the order in which the calls are made: communication that a collaborator
    starts and leaves running when it returns is not part of it.

    Two collaborators are also given a model of their own, after their
    description, since their code is elsewhere in the repository: the
    pipeline scheduler with its two policies, and the loss reduction over the
    data+context group. *)

From Stdlib Require Import ZArith List String Bool Lia QArith.
From Stdlib Require Import DecimalString DecimalPos DecimalZ.
Import ListNotations.
Local Open Scope string_scope.
Local Open Scope list_scope.
Local Open Scope Z_scope.

Set Implicit Arguments.

(** ** Python integers *)

(** [a % b] on Python ints: floored remainder, [ZeroDivisionError] when
    [b = 0].  [None] stands for the exception. *)
Definition py_mod (a b : Z) : option Z :=
  if b =? 0 then None else Some (a mod b).

(** [range(n)]: the indices [0, 1, ..., n-1]; empty when [n <= 0]. *)
Definition py_range (n : Z) : list Z :=
  map Z.of_nat (seq 0 (Z.to_nat n)).

(** [str(n)] / [f"{n}"] on a Python int. *)
Definition py_str (n : Z) : string :=
  NilZero.string_of_int (Z.to_int n).

(** ** Exceptions *)
Inductive exn : Type :=
  | AssertionError (msg : string)
  | ZeroDivisionError.

Inductive outcome (A : Type) : Type :=
  | Ok (a : A)
  | Raise (e : exn).
Arguments Ok {A} a.
Arguments Raise {A} e.

(** ** The opaque numerical collaborators

    Tensors, losses, Python floats, the model's forward and backward passes
    and the data pipeline are black boxes for the driver.  No algebraic law
    is assumed of the floating-point operations. *)
Class Torch : Type := {
  tensor : Type;       (* torch.Tensor *)
  scalar : Type;       (* a zero-dimensional loss tensor with its autograd graph *)
  pyfloat : Type;      (* a Python float *)
  params : Type;       (* the model's weights *)
  gradbuf : Type;      (* the model's gradient buffers *)
  optstate : Type;     (* AdamW's moments *)
  iter_state : Type;   (* the position of the data loader's iterator *)
  device : Type;       (* torch.device *)

  float_zero : pyfloat;                          (* 0.0 *)
  float_add : pyfloat -> pyfloat -> pyfloat;     (* a + b on Python floats *)
  scalar_div : scalar -> Z -> scalar;            (* tensor / int *)
  item : scalar -> pyfloat;                      (* tensor.item() *)

  to_device : tensor -> device -> tensor;        (* tensor.to(device) *)
  shape : tensor -> Z * Z;                       (* input_ids.shape *)
  reshape_flat : tensor -> tensor;               (* t.reshape(-1) *)
  view_rows : tensor -> Z -> tensor;             (* t.view(n, -1) *)
  cross_entropy : tensor -> tensor -> scalar;    (* F.cross_entropy(.., reduction='mean') *)

  forward : params -> tensor -> tensor;          (* model(input_ids=...) *)
  backward : scalar -> option bool -> gradbuf -> gradbuf;
                                                 (* loss.backward(), under the
                                                    model's current sync flag *)
  parallel_input : tensor -> tensor -> tensor * tensor;
                                                 (* context-parallel split *)
  next_batch : iter_state -> (tensor * tensor) * iter_state
                                                 (* next(data_loader): the
                                                    "input_ids" and "target_ids"
                                                    of the batch *)
}.

Section Driver.

Context {T : Torch}.

(** ** Data model *)

(** The model object as the driver sees it.  [require_backward_grad_sync] is
    [None] until the attribute is assigned; [has_reset] is
    [hasattr(model, 'reset')]. *)
Record Model : Type := {
  weights : params;
  grad : gradbuf;
  require_backward_grad_sync : option bool;
  has_reset : bool
}.

Record DataLoader : Type := {
  grad_acc : Z;
  micro_batch_size : Z;
  global_batch_size : Z;
  seq_length_per_gpu : Z;
  iterator : iter_state
}.

(** [pgm.process_group_manager]: the fields the driver reads. *)
Record ProcessGroupManager : Type := {
  global_rank : Z;
  tp_rank : Z;
  dp_rank : Z;
  cp_rank : Z;
  pp_is_last_stage : bool;
  tp_size : Z;
  cp_size : Z;
  pp_size : Z;
  dp_size : Z;
  tp_world_size : Z;
  pp_world_size : Z;
  cp_dp_world_size : Z
}.

(** What is reported on one line of the per-step log.  Tokens per second and
    memory usage are read from the wall clock and from CUDA; they are part of
    the same line and carry no value here (a step takes some time: the
    duration it is divided by is not zero). *)
Record StepReport : Type := {
  rep_step : Z;
  rep_loss : pyfloat;
  rep_tokens_per_step : Z;
  rep_trained_tokens : Z
}.

(** ** Events: the driver's calls, in program order *)
Inductive event : Type :=
  (* inside train_step, tagged with the micro-batch index *)
  | EvNextBatch (i : Z)
  | EvSetGradSync (i : Z) (b : bool)
  | EvForward (i : Z)
  | EvBackward (i : Z) (sync : option bool)
  (* startup *)
  | EvInitProcessGroup (rank world : Z)
  | EvSetSeed
  | EvInfo (is_print_rank : bool) (what : string)
  | EvWandbInit
  | EvTensorParallel
  | EvPipelineParallel
  | EvDataParallel
  | EvLoadCheckpoint (path : string)
  | EvBarrier
  (* training loop *)
  | EvZeroGrad
  | EvPipelineStep
  | EvAllReduceLoss (local : pyfloat)
  | EvOptimizerStep
  | EvReset
  | EvStepLog (is_print_rank : bool) (r : StepReport)
  | EvWandbLog (r : StepReport)
  | EvSaveCheckpoint (step trained_tokens : Z) (path : string)
  (* teardown *)
  | EvWandbFinish
  | EvDestroyProcessGroup.

(** ** A writer/error monad for the driver *)

Definition M (A : Type) : Type := (list event * outcome A)%type.

Definition ret {A} (a : A) : M A := ([], Ok a).

Definition bind {A B} (m : M A) (k : A -> M B) : M B :=
  match m with
  | (t, Ok a) => let '(t', r) := k a in (t ++ t', r)
  | (t, Raise e) => (t, Raise e)
  end.

Definition emit (e : event) : M unit := ([e], Ok tt).

Definition raise {A} (e : exn) : M A := ([], Raise e).

Definition py_assert (b : bool) (msg : string) : M unit :=
  if b then ret tt else raise (AssertionError msg).

Definition when (b : bool) (m : M unit) : M unit :=
  if b then m else ret tt.

Definition trace {A} (m : M A) : list event := fst m.
Definition result {A} (m : M A) : outcome A := snd m.

Notation "x <- m ;; k" := (bind m (fun x => k))
  (at level 61, m at next level, right associativity).
Notation "' p <- m ;; k" := (bind m (fun x => let p := x in k))
  (at level 61, p pattern, m at next level, right associativity).
Notation "m ;; k" := (bind m (fun _ => k))
  (at level 61, right associativity).

(** [for i in range(n): body], threading the loop-carried variables [s]. *)
Fixpoint for_each {S} (l : list Z) (body : Z -> S -> M S) (s : S) : M S :=
  match l with
  | [] => ret s
  | i :: l' => s' <- body i s ;; for_each l' body s'
  end.

Definition for_range {S} (n : Z) (body : Z -> S -> M S) (s : S) : M S :=
  for_each (py_range n) body s.

(** ** [train_step] (train.py, lines 32-59) *)

(** The loop-carried variables of [train_step]. *)
Record StepVars : Type := {
  acc_loss : pyfloat;
  model : Model;
  data_loader : DataLoader
}.

Definition set_sync (m : Model) (b : bool) : Model :=
  {| weights := weights m; grad := grad m;
     require_backward_grad_sync := Some b; has_reset := has_reset m |}.

Definition set_flag (m : Model) (f : option bool) : Model :=
  {| weights := weights m; grad := grad m;
     require_backward_grad_sync := f; has_reset := has_reset m |}.

Definition set_weights (m : Model) (w : params) : Model :=
  {| weights := w; grad := grad m;
     require_backward_grad_sync := require_backward_grad_sync m;
     has_reset := has_reset m |}.

Definition set_grad (m : Model) (g : gradbuf) : Model :=
  {| weights := weights m; grad := g;
     require_backward_grad_sync := require_backward_grad_sync m;
     has_reset := has_reset m |}.

Definition set_iterator (d : DataLoader) (it : iter_state) : DataLoader :=
  {| grad_acc := grad_acc d; micro_batch_size := micro_batch_size d;
     global_batch_size := global_batch_size d;
     seq_length_per_gpu := seq_length_per_gpu d; iterator := it |}.

(** The loss tensor of one micro-batch, before the division by [grad_acc]:
    lines 39-41 and 47-53 on the batch [(input_ids, target_ids)]. *)
Definition micro_batch_cross_entropy (w : params) (dev : device)
    (batch : tensor * tensor) : scalar :=
  let input_ids := to_device (fst batch) dev in
  let target_ids := to_device (snd batch) dev in
  let '(input_ids, target_ids) := parallel_input input_ids target_ids in
  let outputs := forward w input_ids in
  let '(batch_size, seq_len) := shape input_ids in
  let target_ids := reshape_flat target_ids in
  let outputs := view_rows outputs (seq_len * batch_size) in
  cross_entropy outputs target_ids.

(** The body of the micro-batch loop. *)
Definition train_step_body (requires_grad_sync : bool) (dev : device)
    (i : Z) (v : StepVars) : M StepVars :=
  let model := model v in
  let data_loader := data_loader v in
  (* get the next batch *)
  emit (EvNextBatch i) ;;
  let '(batch, it) := next_batch (iterator data_loader) in
  let data_loader := set_iterator data_loader it in
  (* disable gradient synchronization for all but the last micro-batch *)
  model <- (if requires_grad_sync
            then (let b := i =? grad_acc data_loader - 1 in
                  emit (EvSetGradSync i b) ;; ret (set_sync model b))
            else ret model) ;;
  emit (EvForward i) ;;
  let loss :=
    scalar_div (micro_batch_cross_entropy (weights model) dev batch)
               (grad_acc data_loader) in
  emit (EvBackward i (require_backward_grad_sync model)) ;;
  let model :=
    set_grad model (backward loss (require_backward_grad_sync model) (grad model)) in
  ret {| acc_loss := float_add (acc_loss v) (item loss);
         model := model; data_loader := data_loader |}.

Definition train_step (pgm : ProcessGroupManager) (model : Model)
    (data_loader : DataLoader) (dev : device) : M StepVars :=
  let acc_loss := float_zero in
  let requires_grad_sync := cp_dp_world_size pgm >? 1 in
  for_range (grad_acc data_loader)
    (train_step_body requires_grad_sync dev)
    {| acc_loss := acc_loss; model := model; data_loader := data_loader |}.

(** ** The script (train.py, lines 61-246) *)

(** The configuration file, as far as the driver's control flow reads it.
    [MAX_TOKENS] and [LOAD_PATH] may be JSON [null]. *)
Record Config : Type := {
  SEQ_LEN : Z;
  MAX_TOKENS : option Z;
  TOTAL_TRAIN_STEPS : Z;
  GRAD_ACC : Z;
  USE_WANDB : bool;
  TP_SIZE : Z;
  PP_SIZE : Z;
  DP_SIZE : Z;
  CP_SIZE : Z;
  LOAD_PATH : option string;
  CHECKPOINT_DIR : string;
  CHECKPOINT_FREQ : Z;
  use_cpu : bool;
  FLASH_ATTEN : string
}.

(** What the launcher and the hardware provide. *)
Record Environ : Type := {
  LOCAL_RANK : Z;
  WORLD_SIZE : Z;
  bf16_supported : bool    (* torch.cuda.is_available() and is_bf16_supported() *)
}.

Inductive dtype : Type := bfloat16 | float32.

Definition is_bfloat16 (d : dtype) : bool :=
  match d with bfloat16 => true | float32 => false end.

(** The collaborators of the script that live in other modules of the
    repository ([utils], [model], [src.distributed], [src.parallel]) or in
    external packages.  Collectives see the other ranks; what they contribute
    is folded into the opaque function, indexed by the step counter. *)
Class Runtime : Type := {
  setup_process_group_manager :
    Z -> Z -> Z -> Z -> Z -> Z -> ProcessGroupManager;
                                   (* tp, cp, pp, dp sizes; rank and world
                                      size come from torch.distributed *)
  Llama : Config -> Model;
  MicroBatchDataLoader : Config -> DataLoader;
  TensorParallel : Model -> Model;
  PipelineParallel : Model -> Model;
  DataParallel : Model -> Model;
  AdamW : Model -> optstate;
  load_checkpoint : params -> optstate -> string -> (Z * Z) * (params * optstate);
                                   (* returns (step, trained_tokens) and
                                      restores weights and optimizer in place *)
  zero_grad : gradbuf -> gradbuf;  (* optimizer.zero_grad() *)
  optimizer_step : params -> gradbuf -> optstate -> params * optstate;
                                   (* optimizer.step() *)
  reset : gradbuf -> gradbuf;      (* model.reset() *)
  train_step_pipeline_afab :
    params -> gradbuf -> option bool -> DataLoader -> device
    -> pyfloat * (gradbuf * option bool * iter_state);
                                   (* returns the loss and leaves behind the
                                      gradients, the sync flag and the
                                      iterator position *)
  all_reduce_loss_across_dp_cp_ranks : Z -> pyfloat -> device -> pyfloat;
  device_of : bool -> Z -> device  (* cpu, or cuda:local_rank *)
}.

Context {R : Runtime}.

(** Python truthiness of [LOAD_PATH]: [None] and the empty string are false. *)
Definition truthy_path (p : option string) : option string :=
  match p with
  | Some s => if String.eqb s "" then None else Some s
  | None => None
  end.

(** Line 75: the precision / kernel-mode assertion. *)
Definition kernel_assertion (c : Config) (e : Environ) : M unit :=
  let dt := if bf16_supported e && negb (use_cpu c) then bfloat16 else float32 in
  py_assert ((is_bfloat16 dt && String.eqb (FLASH_ATTEN c) "1")
             || negb (String.eqb (FLASH_ATTEN c) "1"))
            "Kernel operations requires dtype=torch.bfloat16".

(** [a % b] inside the driver: the value, or [ZeroDivisionError]. *)
Definition mod_or_raise (a b : Z) : M Z :=
  match py_mod a b with
  | Some r => ret r
  | None => raise ZeroDivisionError
  end.

(** Lines 105-106: the two startup assertions. *)
Definition startup_assertions (c : Config) (e : Environ) : M unit :=
  r <- mod_or_raise (SEQ_LEN c) (CP_SIZE c) ;;
  py_assert (r =? 0)
    "SEQ_LEN must be divisible by cp_size for Context Parallelism" ;;
  py_assert (WORLD_SIZE e =? TP_SIZE c * PP_SIZE c * DP_SIZE c * CP_SIZE c)
    "world_size must be equal to tp_size * pp_size * dp_size * cp_size".

(** Line 116. *)
Definition is_wandb_rank (pgm : ProcessGroupManager) : bool :=
  (tp_rank pgm =? 0) && (dp_rank pgm =? 0) && (cp_rank pgm =? 0)
  && pp_is_last_stage pgm.

(** The variables the training loop carries from one iteration to the next. *)
Record LoopVars : Type := {
  lv_model : Model;
  lv_loader : DataLoader;
  lv_optimizer : optstate;
  trained_tokens : Z;
  step : Z
}.

(** Lines 207-210: the pipelined step or the plain one. *)
Definition dispatch_step (pgm : ProcessGroupManager) (dev : device)
    (m : Model) (d : DataLoader) : M (pyfloat * (Model * DataLoader)) :=
  if pp_world_size pgm >? 1
  then emit EvPipelineStep ;;
       let '(loss, (g, flag, it)) :=
         train_step_pipeline_afab (weights m) (grad m)
           (require_backward_grad_sync m) d dev in
       ret (loss, (set_flag (set_grad m g) flag, set_iterator d it))
  else v <- train_step pgm m d dev ;;
       ret (acc_loss v, (model v, data_loader v)).

(** Lines 204-238: one iteration of the training loop, up to the [break]
    test. *)
Definition loop_body (c : Config) (e : Environ) (pgm : ProcessGroupManager)
    (dev : device) (tokens_per_step : Z) (v : LoopVars) : M LoopVars :=
  emit EvZeroGrad ;;
  let m := set_grad (lv_model v) (zero_grad (grad (lv_model v))) in
  '(loss, (m, d)) <- dispatch_step pgm dev m (lv_loader v) ;;
  emit (EvAllReduceLoss loss) ;;
  let loss := all_reduce_loss_across_dp_cp_ranks (step v) loss dev in
  emit EvOptimizerStep ;;
  let '(w, opt) := optimizer_step (weights m) (grad m) (lv_optimizer v) in
  let m := set_weights m w in
  let trained_tokens := trained_tokens v + tokens_per_step in
  let step := step v + 1 in
  (* In DDP implementation I need to reset the gradient buffers *)
  m <- (if has_reset m
        then emit EvReset ;; ret (set_grad m (reset (grad m)))
        else ret m) ;;
  let report := {| rep_step := step; rep_loss := loss;
                   rep_tokens_per_step := tokens_per_step;
                   rep_trained_tokens := trained_tokens |} in
  when (is_wandb_rank pgm)
    (emit (EvStepLog (is_wandb_rank pgm) report) ;;
     when (USE_WANDB c) (emit (EvWandbLog report))) ;;
  r <- mod_or_raise step (CHECKPOINT_FREQ c) ;;
  when (r =? 0)
    (emit (EvSaveCheckpoint step trained_tokens
             (String.append (CHECKPOINT_DIR c)
                (String.append "/" (py_str step))))) ;;
  ret {| lv_model := m; lv_loader := d; lv_optimizer := opt;
         trained_tokens := trained_tokens; step := step |}.

(** Line 201: [MAX_TOKENS is None or trained_tokens < MAX_TOKENS]. *)
Definition loop_guard (c : Config) (v : LoopVars) : bool :=
  match MAX_TOKENS c with
  | None => true
  | Some mt => trained_tokens v <? mt
  end.

(** Lines 201-241: the [while] loop.  [fuel] bounds the number of iterations;
    [None] is returned only when it runs out. *)
Fixpoint training_loop (fuel : nat) (c : Config) (e : Environ)
    (pgm : ProcessGroupManager) (dev : device) (tokens_per_step : Z)
    (v : LoopVars) : M (option LoopVars) :=
  match fuel with
  | O => ret None
  | S fuel' =>
    if loop_guard c v then
      v' <- loop_body c e pgm dev tokens_per_step v ;;
      if step v' >=? TOTAL_TRAIN_STEPS c
      then ret (Some v')
      else training_loop fuel' c e pgm dev tokens_per_step v'
    else ret (Some v)
  end.

(** Iterations the loop can make from [v]: the [break] at line 240 fires once
    [step] reaches [TOTAL_TRAIN_STEPS], and [step] grows by one each time. *)
Definition iterations_bound (c : Config) (v : LoopVars) : nat :=
  S (Z.to_nat (TOTAL_TRAIN_STEPS c - step v)).

(** Lines 189-191: the counters start at zero unless a checkpoint is loaded. *)
Definition restore (c : Config) (m : Model) (d : DataLoader) (opt : optstate)
    : M LoopVars :=
  let trained_tokens := 0 in
  let step := 0 in
  match truthy_path (LOAD_PATH c) with
  | Some path =>
      emit (EvLoadCheckpoint path) ;;
      let '((step, trained_tokens), (w, opt)) :=
        load_checkpoint (weights m) opt path in
      ret {| lv_model := set_weights m w; lv_loader := d; lv_optimizer := opt;
             trained_tokens := trained_tokens; step := step |}
  | None =>
      ret {| lv_model := m; lv_loader := d; lv_optimizer := opt;
             trained_tokens := trained_tokens; step := step |}
  end.

(** Lines 108-187: process group, model, data loader, parallel wrappers and
    optimizer.  Returns what the rest of the script uses. *)
Record Setup : Type := {
  su_pgm : ProcessGroupManager;
  su_device : device;
  su_model : Model;
  su_loader : DataLoader;
  su_optimizer : optstate;
  su_tokens_per_step : Z
}.

Definition wrap_if (b : bool) (ev : event) (f : Model -> Model) (m : Model)
    : M Model :=
  if b then emit ev ;; ret (f m) else ret m.

Definition setup (c : Config) (e : Environ) : M Setup :=
  let dev := device_of (use_cpu c) (LOCAL_RANK e) in
  emit (EvInitProcessGroup (LOCAL_RANK e) (WORLD_SIZE e)) ;;
  let pgm := setup_process_group_manager (TP_SIZE c) (CP_SIZE c) (PP_SIZE c)
               (DP_SIZE c) (LOCAL_RANK e) (WORLD_SIZE e) in
  let is_wandb_rank := is_wandb_rank pgm in
  emit EvSetSeed ;;
  let m := Llama c in
  emit (EvInfo is_wandb_rank "init model time:") ;;
  let d := MicroBatchDataLoader c in
  emit (EvInfo is_wandb_rank "init dataloader time:") ;;
  let tokens_per_step := global_batch_size d * SEQ_LEN c in
  when (global_rank pgm =? 0)
    (emit (EvInfo is_wandb_rank "Tokens per step:")) ;;
  when (is_wandb_rank && USE_WANDB c) (emit EvWandbInit) ;;
  m <- wrap_if (tp_world_size pgm >? 1) EvTensorParallel TensorParallel m ;;
  m <- wrap_if (pp_world_size pgm >? 1) EvPipelineParallel PipelineParallel m ;;
  (* Context parallel and Data parallel both need gradient synchronization *)
  m <- wrap_if (cp_dp_world_size pgm >? 1) EvDataParallel DataParallel m ;;
  emit (EvInfo is_wandb_rank "init parallel time:") ;;
  emit (EvInfo is_wandb_rank "model to device time:") ;;
  ret {| su_pgm := pgm; su_device := dev; su_model := m; su_loader := d;
         su_optimizer := AdamW m; su_tokens_per_step := tokens_per_step |}.

(** Lines 189-246, after the setup. *)
Definition train (c : Config) (e : Environ) (s : Setup) : M unit :=
  v <- restore c (su_model s) (su_loader s) (su_optimizer s) ;;
  emit EvBarrier ;;
  training_loop (iterations_bound c v) c e (su_pgm s) (su_device s)
    (su_tokens_per_step s) v ;;
  when (is_wandb_rank (su_pgm s) && USE_WANDB c) (emit EvWandbFinish) ;;
  emit EvDestroyProcessGroup.

(** The script. *)
Definition main (c : Config) (e : Environ) : M unit :=
  kernel_assertion c e ;;
  startup_assertions c e ;;
  s <- setup c e ;;
  train c e s.

(** ** Reading a trace *)

(** The sync flag the model carries during micro-batch [i]: the value
    assigned at line 45 when synchronisation is required, the flag it had
    before the step otherwise. *)
Definition sync_flag (requires_grad_sync : bool) (n : Z)
    (before : option bool) (i : Z) : option bool :=
  if requires_grad_sync then Some (i =? n - 1) else before.

(** The calls of one pass through the micro-batch loop. *)
Definition micro_batch_events (requires_grad_sync : bool) (n : Z)
    (before : option bool) (i : Z) : list event :=
  EvNextBatch i
  :: (if requires_grad_sync then [EvSetGradSync i (i =? n - 1)] else [])
  ++ [EvForward i; EvBackward i (sync_flag requires_grad_sync n before i)].

(** What one micro-batch adds to [acc_loss] (lines 53 and 57): its mean
    cross-entropy divided by [grad_acc], read back as a Python float. *)
Definition micro_batch_loss (w : params) (dev : device) (n : Z)
    (batch : tensor * tensor) : pyfloat :=
  item (scalar_div (micro_batch_cross_entropy w dev batch) n).

(** The first [k] batches the iterator yields. *)
Fixpoint micro_batches (k : nat) (it : iter_state) : list (tensor * tensor) :=
  match k with
  | O => []
  | S k' => let '(b, it') := next_batch it in b :: micro_batches k' it'
  end.

(** The assignments to [require_backward_grad_sync], in order. *)
Definition grad_sync_assignments (t : list event) : list (Z * bool) :=
  flat_map (fun e => match e with EvSetGradSync i b => [(i, b)] | _ => [] end) t.

(** The backward passes and the flag each one ran under, in order. *)
Definition backward_calls (t : list event) : list (Z * option bool) :=
  flat_map (fun e => match e with EvBackward i s => [(i, s)] | _ => [] end) t.

(** Events issued from inside the training step: by [train_step], or the one
    call that stands for the pipelined step. *)
Definition is_step_event (e : event) : bool :=
  match e with
  | EvNextBatch _ | EvSetGradSync _ _ | EvForward _ | EvBackward _ _
  | EvPipelineStep => true
  | _ => false
  end.

Definition is_loss_reduction (e : event) : bool :=
  match e with EvAllReduceLoss _ => true | _ => false end.

Definition is_optimizer_step (e : event) : bool :=
  match e with EvOptimizerStep => true | _ => false end.

Definition is_reset (e : event) : bool :=
  match e with EvReset => true | _ => false end.

(** [utils.print] writes its line when [is_print_rank] is true. *)
Definition is_emitted_step_log (e : event) : bool :=
  match e with EvStepLog true _ => true | _ => false end.

Definition is_metrics_upload (e : event) : bool :=
  match e with EvWandbLog _ => true | _ => false end.

Definition is_save (e : event) : bool :=
  match e with EvSaveCheckpoint _ _ _ => true | _ => false end.

Definition is_load (e : event) : bool :=
  match e with EvLoadCheckpoint _ => true | _ => false end.

Definition count (f : event -> bool) (t : list event) : nat :=
  List.length (filter f t).

(** [s] is a positive multiple of [f]. *)
Definition positive_multiple (s f : Z) : Prop :=
  0 < s /\ (f | s).

(** ** One iteration, call by call *)

(** The calls of the training step of an iteration (lines 207-210). *)
Definition step_events (pgm : ProcessGroupManager) (m : Model)
    (d : DataLoader) : list event :=
  if pp_world_size pgm >? 1 then [EvPipelineStep]
  else flat_map (micro_batch_events (cp_dp_world_size pgm >? 1) (grad_acc d)
                   (require_backward_grad_sync m))
                (py_range (grad_acc d)).

(** The local loss the training step returns. *)
Definition step_loss (pgm : ProcessGroupManager) (dev : device) (m : Model)
    (d : DataLoader) : pyfloat :=
  if pp_world_size pgm >? 1
  then fst (train_step_pipeline_afab (weights m) (grad m)
              (require_backward_grad_sync m) d dev)
  else fold_left float_add
         (map (micro_batch_loss (weights m) dev (grad_acc d))
              (micro_batches (Z.to_nat (grad_acc d)) (iterator d)))
         float_zero.

Definition reset_events (has : bool) : list event :=
  if has then [EvReset] else [].

Definition log_events (c : Config) (pgm : ProcessGroupManager)
    (r : StepReport) : list event :=
  if is_wandb_rank pgm
  then EvStepLog true r :: (if USE_WANDB c then [EvWandbLog r] else [])
  else [].

Definition checkpoint_path (c : Config) (step : Z) : string :=
  String.append (CHECKPOINT_DIR c) (String.append "/" (py_str step)).

Definition save_events (c : Config) (step trained_tokens : Z) : list event :=
  match py_mod step (CHECKPOINT_FREQ c) with
  | Some r =>
      if r =? 0
      then [EvSaveCheckpoint step trained_tokens (checkpoint_path c step)]
      else []
  | None => []
  end.

(** The checkpoint load of lines 190-191. *)
Definition load_events (c : Config) : list event :=
  match truthy_path (LOAD_PATH c) with
  | Some path => [EvLoadCheckpoint path]
  | None => []
  end.

(** The report of the iteration that starts from [v]. *)
Definition step_report (pgm : ProcessGroupManager) (dev : device)
    (tokens_per_step : Z) (v : LoopVars) : StepReport :=
  let m := set_grad (lv_model v) (zero_grad (grad (lv_model v))) in
  {| rep_step := step v + 1;
     rep_loss := all_reduce_loss_across_dp_cp_ranks (step v)
                   (step_loss pgm dev m (lv_loader v)) dev;
     rep_tokens_per_step := tokens_per_step;
     rep_trained_tokens := trained_tokens v + tokens_per_step |}.

Definition iteration_events (c : Config) (pgm : ProcessGroupManager)
    (dev : device) (tokens_per_step : Z) (v : LoopVars) : list event :=
  let m := set_grad (lv_model v) (zero_grad (grad (lv_model v))) in
  EvZeroGrad
  :: step_events pgm m (lv_loader v)
  ++ EvAllReduceLoss (step_loss pgm dev m (lv_loader v))
  :: EvOptimizerStep
  :: reset_events (has_reset (lv_model v))
  ++ log_events c pgm (step_report pgm dev tokens_per_step v)
  ++ save_events c (step v + 1) (trained_tokens v + tokens_per_step).

(** The loop variables at the start of each iteration the loop makes. *)
Fixpoint iterations (fuel : nat) (c : Config) (e : Environ)
    (pgm : ProcessGroupManager) (dev : device) (tokens_per_step : Z)
    (v : LoopVars) : list LoopVars :=
  match fuel with
  | O => []
  | S fuel' =>
    if loop_guard c v then
      v :: match result (loop_body c e pgm dev tokens_per_step v) with
           | Ok v' =>
               if step v' >=? TOTAL_TRAIN_STEPS c then []
               else iterations fuel' c e pgm dev tokens_per_step v'
           | Raise _ => []
           end
    else []
  end.

(** The same loop variables, for a model that does or does not expose
    [reset]. *)
Definition with_reset (has : bool) (v : LoopVars) : LoopVars :=
  {| lv_model := {| weights := weights (lv_model v);
                    grad := grad (lv_model v);
                    require_backward_grad_sync :=
                      require_backward_grad_sync (lv_model v);
                    has_reset := has |};
     lv_loader := lv_loader v; lv_optimizer := lv_optimizer v;
     trained_tokens := trained_tokens v; step := step v |}.

(** ** More readings of a trace *)

(** The iterator after [k] batches have been drawn from it. *)
Fixpoint advance (k : nat) (it : iter_state) : iter_state :=
  match k with
  | O => it
  | S k' => advance k' (snd (next_batch it))
  end.

Definition is_next_batch (e : event) : bool :=
  match e with EvNextBatch _ => true | _ => false end.

Definition is_pipeline_step (e : event) : bool :=
  match e with EvPipelineStep => true | _ => false end.

Definition is_wandb_init (e : event) : bool :=
  match e with EvWandbInit => true | _ => false end.

(** A call to the metrics service after its initialisation. *)
Definition is_wandb_use (e : event) : bool :=
  match e with EvWandbLog _ | EvWandbFinish => true | _ => false end.

(** An informational line of the startup that is written out. *)
Definition is_written_info (e : event) : bool :=
  match e with EvInfo true _ => true | _ => false end.

End Driver.

(** * The pipeline scheduler

    [train_step_pipeline_afab] and [train_step_pipeline_1f1b] live in
    [src/parallel/pipeline_parallel.py]; the driver only calls them.  The
    definitions of this section follow the description of the scheduler. *)

Section Pipeline.

Context {T : Torch}.

(** Modelled from the spec: an entry of the pipeline micro-batch queue,
    missing from the sources: what a stage keeps of a forward pass until its
    backward pass, namely the activation it received (none on the first
    stage) and the one it produced. *)
Record Activation : Type := {
  act_input : option tensor;
  act_output : tensor
}.

(** Modelled from the spec: the model collaborator of one pipeline stage,
    which is missing from the sources: its forward pass on a micro-batch, the
    loss of the last stage, and the backward pass, which adds to the
    gradient buffers and yields the gradient for the previous stage. *)
Class StageModel : Type := {
  stage_forward : params -> option tensor -> tensor * tensor -> tensor;
  stage_loss : tensor -> tensor * tensor -> scalar;
  stage_backward :
    params -> tensor * tensor -> Activation -> option tensor -> gradbuf
    -> gradbuf * tensor
}.

Context {SM : StageModel}.

(** Modelled from the spec: a step of a schedule, missing from the sources:
    one forward or backward pass of a stage on the micro-batch of the given
    index. *)
Inductive op : Type :=
  | Fwd (i : nat)
  | Bwd (i : nat).

Definition is_fwd (o : op) : bool :=
  match o with Fwd _ => true | Bwd _ => false end.

Definition is_bwd (o : op) : bool :=
  match o with Fwd _ => false | Bwd _ => true end.

Inductive policy : Type := AFAB | OneFOneB.

(** Modelled from the spec: the all-forward-all-backward schedule, missing
    from the sources: all [grad_acc] forward passes, then all backward passes
    in the same micro-batch order. *)
Definition afab (n : nat) : list op :=
  map Fwd (seq 0 n) ++ map Bwd (seq 0 n).

(** Modelled from the spec: the one-forward-one-backward schedule, missing
    from the sources: a warm-up of [pipeline_size - pipeline_rank - 1]
    forward passes (at most one per micro-batch of the step), a steady state
    alternating one forward and one backward, and a cool-down that drains the
    remaining backward passes. *)
Definition num_warmup (p r n : nat) : nat := Nat.min (p - r - 1) n.

(** Modelled from the spec: the three phases of the one-forward-one-backward
    schedule of stage [r] of [p], missing from the sources; the [k]-th round
    of the steady state makes the forward pass of micro-batch [w + k] and the
    backward pass of micro-batch [k]. *)
Definition one_f_one_b (p r n : nat) : list op :=
  let w := num_warmup p r n in
  map Fwd (seq 0 w)
  ++ flat_map (fun k => [Fwd (w + k); Bwd k]) (seq 0 (n - w))
  ++ map Bwd (seq (n - w) w).

Definition schedule (pol : policy) (p r n : nat) : list op :=
  match pol with
  | AFAB => afab n
  | OneFOneB => one_f_one_b p r n
  end.

(** Modelled from the spec: a pipeline stage, missing from the sources: its
    place in the pipeline ([is_first_stage], [is_last_stage]), its weights,
    the micro-batches of the step and their number [grad_acc]. *)
Record Stage : Type := {
  is_first_stage : bool;
  is_last_stage : bool;
  stage_weights : params;
  stage_batch : nat -> tensor * tensor;
  stage_grad_acc : nat
}.

(** Modelled from the spec: the state of a stage during one training step,
    missing from the sources: the pipeline micro-batch queue (the activations
    pending backward and the counter of completed forward/backward pairs),
    the gradient buffers, the loss, and the messages exchanged with the two
    neighbours.  The streams hold the messages in the order of their arrival:
    the transport is reliable and ordered per pair of ranks, so a receive
    returns the oldest message not yet received.  How long a stage waits for
    a message is not part of the model. *)
Record StageState : Type := {
  st_pending : list (nat * Activation);   (* activations awaiting backward *)
  st_completed : nat;                     (* forward/backward pairs done *)
  st_fwd_in : list tensor;                (* from the previous stage *)
  st_bwd_in : list tensor;                (* from the next stage *)
  st_fwd_out : list tensor;               (* sent to the next stage *)
  st_bwd_out : list tensor;               (* sent to the previous stage *)
  st_grad : gradbuf;
  st_loss : pyfloat
}.

Fixpoint lookup (i : nat) (l : list (nat * Activation)) : option Activation :=
  match l with
  | [] => None
  | (j, a) :: l' => if Nat.eqb i j then Some a else lookup i l'
  end.

Fixpoint discard (i : nat) (l : list (nat * Activation))
    : list (nat * Activation) :=
  match l with
  | [] => []
  | (j, a) :: l' => if Nat.eqb i j then l' else (j, a) :: discard i l'
  end.

Definition obind {A B} (o : option A) (k : A -> option B) : option B :=
  match o with
  | Some a => k a
  | None => None
  end.

(** Modelled from the spec: the receive of the transport, missing from the
    sources: nothing to receive at the end of the pipeline ([Some None]);
    otherwise the oldest message, or [None] when none will ever come. *)
Definition recv (at_end : bool) (stream : list tensor)
    : option (option tensor * list tensor) :=
  if at_end then Some (None, stream)
  else match stream with
       | x :: rest => Some (Some x, rest)
       | [] => None
       end.

(** Modelled from the spec: the send of the transport, missing from the
    sources; there is nothing to send to at the end of the pipeline. *)
Definition send (at_end : bool) (stream : list tensor) (x : tensor)
    : list tensor :=
  if at_end then stream else stream ++ [x].

(** Modelled from the spec: one forward or backward pass of a stage, missing
    from the sources.  A forward pass receives from the previous stage unless
    first, sends to the next unless last, buffers the activation, and on the
    last stage adds the micro-batch loss divided by [grad_acc].  A backward
    pass needs the buffered activation of its micro-batch (it is an invariant
    violation otherwise), receives from the next stage unless last, and sends
    to the previous unless first.  [None]: the pass cannot be made. *)
Definition exec (sg : Stage) (o : op) (st : StageState) : option StageState :=
  match o with
  | Fwd i =>
      match recv (is_first_stage sg) (st_fwd_in st) with
      | Some (input, fwd_in) =>
          let out := stage_forward (stage_weights sg) input (stage_batch sg i) in
          Some {| st_pending :=
                    st_pending st
                    ++ [(i, {| act_input := input; act_output := out |})];
                  st_completed := st_completed st;
                  st_fwd_in := fwd_in;
                  st_bwd_in := st_bwd_in st;
                  st_fwd_out := send (is_last_stage sg) (st_fwd_out st) out;
                  st_bwd_out := st_bwd_out st;
                  st_grad := st_grad st;
                  st_loss :=
                    if is_last_stage sg
                    then float_add (st_loss st)
                           (item (scalar_div
                                    (stage_loss out (stage_batch sg i))
                                    (Z.of_nat (stage_grad_acc sg))))
                    else st_loss st |}
      | None => None
      end
  | Bwd i =>
      match lookup i (st_pending st) with
      | Some a =>
          match recv (is_last_stage sg) (st_bwd_in st) with
          | Some (g, bwd_in) =>
              let '(grad', gx) :=
                stage_backward (stage_weights sg) (stage_batch sg i) a g
                  (st_grad st) in
              Some {| st_pending := discard i (st_pending st);
                      st_completed := S (st_completed st);
                      st_fwd_in := st_fwd_in st;
                      st_bwd_in := bwd_in;
                      st_fwd_out := st_fwd_out st;
                      st_bwd_out := send (is_first_stage sg) (st_bwd_out st) gx;
                      st_grad := grad';
                      st_loss := st_loss st |}
          | None => None
          end
      | None => None
      end
  end.

(** Modelled from the spec: the scheduler state machine of one rank, missing
    from the sources: a stage makes the passes of its schedule one after the
    other. *)
Fixpoint run_stage (sg : Stage) (sched : list op) (st : StageState)
    : option StageState :=
  match sched with
  | [] => Some st
  | o :: sched' => obind (exec sg o st) (run_stage sg sched')
  end.

(** Modelled from the spec: the state of a stage at the start of a step,
    missing from the sources: nothing pending, nothing sent, loss [0.0]. *)
Definition start (g0 : gradbuf) (fwd_in bwd_in : list tensor) : StageState :=
  {| st_pending := []; st_completed := 0%nat;
     st_fwd_in := fwd_in; st_bwd_in := bwd_in;
     st_fwd_out := []; st_bwd_out := [];
     st_grad := g0; st_loss := float_zero |}.

(** Modelled from the spec: the pipeline-parallel group, missing from the
    sources: the weights and gradient buffers of every stage, first stage
    first, and the micro-batches of the step. *)
Record Pipeline : Type := {
  pl_stages : list (params * gradbuf);
  pl_batch : nat -> tensor * tensor;
  pl_grad_acc : nat
}.

Definition stage_of (pl : Pipeline) (r : nat) (w : params) : Stage :=
  {| is_first_stage := Nat.eqb r 0;
     is_last_stage := Nat.eqb (S r) (List.length (pl_stages pl));
     stage_weights := w;
     stage_batch := pl_batch pl;
     stage_grad_acc := pl_grad_acc pl |}.

(** Modelled from the spec: the activations exchanged between adjacent
    stages, missing from the sources: the stream arriving at each of the
    stages [r], [r+1], ...  What a stage sends forward is what its forward
    passes produce, in the order of its schedule; the weights do not change
    within a step, so its backward passes have no part in it. *)
Fixpoint forward_streams (pol : policy) (pl : Pipeline) (r : nat)
    (stages : list (params * gradbuf)) (fwd_in : list tensor)
    : option (list (list tensor)) :=
  match stages with
  | [] => Some []
  | (w, g0) :: stages' =>
      let p := List.length (pl_stages pl) in
      match run_stage (stage_of pl r w)
              (filter is_fwd (schedule pol p r (pl_grad_acc pl)))
              (start g0 fwd_in []) with
      | Some st =>
          match forward_streams pol pl (S r) stages' (st_fwd_out st) with
          | Some rest => Some (fwd_in :: rest)
          | None => None
          end
      | None => None
      end
  end.

(** Modelled from the spec: the stages [r], [r+1], ... of the pipeline,
    missing from the sources, each running its schedule on the activations
    arriving from the stage before it and the gradients arriving from the
    stage after it.  Returns the gradients sent to stage [r-1] and the final
    states. *)
Fixpoint run_stages (pol : policy) (pl : Pipeline) (r : nat)
    (stages : list (params * gradbuf)) (fwd_ins : list (list tensor))
    : option (list tensor * list StageState) :=
  match stages, fwd_ins with
  | [], [] => Some ([], [])
  | (w, g0) :: stages', fwd_in :: fwd_ins' =>
      let p := List.length (pl_stages pl) in
      match run_stages pol pl (S r) stages' fwd_ins' with
      | Some (bwd_in, finals) =>
          match run_stage (stage_of pl r w)
                  (schedule pol p r (pl_grad_acc pl))
                  (start g0 fwd_in bwd_in) with
          | Some st => Some (st_bwd_out st, st :: finals)
          | None => None
          end
      | None => None
      end
  | _, _ => None
  end.

(** Modelled from the spec: one pipelined training step under a scheduling
    policy ([train_step_pipeline_afab], [train_step_pipeline_1f1b]), missing
    from the sources: the accumulated gradients and the reported loss of
    every stage, or [None] when some stage cannot make a pass of its
    schedule. *)
Definition pipeline_step (pol : policy) (pl : Pipeline)
    : option (list (gradbuf * pyfloat)) :=
  match forward_streams pol pl 0 (pl_stages pl) [] with
  | Some fwd_ins =>
      match run_stages pol pl 0 (pl_stages pl) fwd_ins with
      | Some (_, finals) =>
          Some (map (fun st => (st_grad st, st_loss st)) finals)
      | None => None
      end
  | None => None
  end.

(** The parameter update that follows the step: the optimizer applied to the
    weights and the accumulated gradients of every stage. *)
Definition updated_weights (update : params -> gradbuf -> params)
    (pl : Pipeline) (results : list (gradbuf * pyfloat)) : list params :=
  map (fun '((w, _), (g, _)) => update w g) (combine (pl_stages pl) results).

(** Every stage from [r] on, except the first of the pipeline, has an
    activation arriving for each of the [n] micro-batches. *)
Fixpoint streams_complete (n r : nat) (fwd_ins : list (list tensor)) : Prop :=
  match fwd_ins with
  | [] => True
  | fwd_in :: fwd_ins' =>
      (r = 0%nat \/ (n <= List.length fwd_in)%nat)
      /\ streams_complete n (S r) fwd_ins'
  end.

(** What the first [k] forward passes of a stage receive. *)
Definition received (sg : Stage) (k : nat) (fwd_in : list tensor)
    : list (option tensor) :=
  if is_first_stage sg then repeat None k else map Some (firstn k fwd_in).

(** What the forward pass of micro-batch [i] on the input [x] adds to the
    loss of the last stage. *)
Definition stage_micro_loss (sg : Stage) (ix : nat * option tensor)
    : pyfloat :=
  let batch := stage_batch sg (fst ix) in
  item (scalar_div
          (stage_loss (stage_forward (stage_weights sg) (snd ix) batch) batch)
          (Z.of_nat (stage_grad_acc sg))).

(** Every stage received, as activations, what the stage before it sent. *)
Fixpoint activations_delivered (fwd_ins : list (list tensor))
    (finals : list StageState) : Prop :=
  match fwd_ins, finals with
  | _ :: ((next_in :: _) as fwd_ins'), st :: finals' =>
      st_fwd_out st = next_in /\ activations_delivered fwd_ins' finals'
  | _, _ => True
  end.

(** The micro-batch indices of the passes of one kind, in schedule order. *)
Definition fwd_indices (sched : list op) : list nat :=
  flat_map (fun o => match o with Fwd i => [i] | Bwd _ => [] end) sched.

Definition bwd_indices (sched : list op) : list nat :=
  flat_map (fun o => match o with Bwd i => [i] | Fwd _ => [] end) sched.

(** No backward pass comes before the forward pass of its micro-batch. *)
Fixpoint forward_first (sched : list op) : Prop :=
  match sched with
  | [] => True
  | Fwd _ :: sched' => forward_first sched'
  | Bwd j :: sched' => ~ In j (fwd_indices sched') /\ forward_first sched'
  end.

End Pipeline.

(** * The loss reduction primitive

    [all_reduce_loss_across_dp_cp_ranks] lives in
    [src/distributed/distributed_primtives.py] and the process groups in
    [src/distributed/process_group_manager.py]; the driver only calls them.
    The definitions of this section follow their description. *)

Section LossReduction.

Context {T : Torch}.

(** Division of a Python float by a group size. *)
Variable float_div : pyfloat -> nat -> pyfloat.

(** Modelled from the spec: the four parallel degrees of the topology
    snapshot, missing from the sources. *)
Record Topology : Type := {
  tensor_size : nat;
  context_size : nat;
  pipeline_size : nat;
  data_size : nat
}.

Definition world_size (tp : Topology) : nat :=
  (tensor_size tp * context_size tp * pipeline_size tp * data_size tp)%nat.

(** Modelled from the spec: the per-axis coordinates of a global rank,
    missing from the sources: a mixed-radix decomposition with the tensor
    coordinate varying fastest, then context, then pipeline, and the data
    coordinate slowest. *)
Definition tensor_rank (tp : Topology) (r : nat) : nat :=
  (r mod tensor_size tp)%nat.

Definition context_rank (tp : Topology) (r : nat) : nat :=
  ((r / tensor_size tp) mod context_size tp)%nat.

Definition pipeline_rank (tp : Topology) (r : nat) : nat :=
  ((r / (tensor_size tp * context_size tp)) mod pipeline_size tp)%nat.

Definition data_rank (tp : Topology) (r : nat) : nat :=
  (r / (tensor_size tp * context_size tp * pipeline_size tp))%nat.

(** Modelled from the spec: the composite data+context group of a rank,
    missing from the sources: the ranks that share its tensor and pipeline
    coordinates, in ascending order. *)
Definition same_tensor_and_pipeline (tp : Topology) (r r' : nat) : bool :=
  Nat.eqb (tensor_rank tp r') (tensor_rank tp r)
  && Nat.eqb (pipeline_rank tp r') (pipeline_rank tp r).

Definition cp_dp_group (tp : Topology) (r : nat) : list nat :=
  filter (same_tensor_and_pipeline tp r) (seq 0 (world_size tp)).

(** Modelled from the spec: the sum all-reduce of the transport over a
    group, missing from the sources: every member contributes its local
    value and receives the sum. *)
Definition all_reduce_sum (group : list nat) (local : nat -> pyfloat)
    : pyfloat :=
  fold_left float_add (map local group) float_zero.

(** Modelled from the spec: the loss reduction primitive
    [reduce(local_loss) -> averaged_loss], missing from the sources, as rank
    [r] computes it: the sum of the local losses over its data+context group,
    divided by the size of that group. *)
Definition reduce (tp : Topology) (local : nat -> pyfloat) (r : nat)
    : pyfloat :=
  float_div (all_reduce_sum (cp_dp_group tp r) local)
            (List.length (cp_dp_group tp r)).

End LossReduction.

(** * A small concrete instance

    Tensors are integers, losses are rationals, the data loader counts.  The
    process-group manager lays the ranks out with the tensor coordinate
    varying fastest, then context, then pipeline, then data. *)

Definition toy_torch : Torch := {|
  tensor := Z;
  scalar := Q;
  pyfloat := Q;
  params := Z;
  gradbuf := Q;
  optstate := Z;
  iter_state := nat;
  device := bool;
  float_zero := 0%Q;
  float_add := Qplus;
  scalar_div := fun q n => Qdiv q (inject_Z n);
  item := fun q => q;
  to_device := fun t _ => t;
  shape := fun _ => (1, 1);
  reshape_flat := fun t => t;
  view_rows := fun t _ => t;
  cross_entropy := fun o t => inject_Z (Z.abs (o - t));
  forward := fun w x => w * x;
  backward := fun loss _ g => Qplus g loss;
  parallel_input := fun a b => (a, b);
  next_batch := fun k => ((Z.of_nat k + 1, 1), S k)
|}.

Definition toy_pgm (tp cp pp dp rank world : Z) : ProcessGroupManager :=
  let pp_rank := (rank / (tp * cp)) mod pp in
  {| global_rank := rank;
     tp_rank := rank mod tp;
     cp_rank := (rank / tp) mod cp;
     dp_rank := rank / (tp * cp * pp);
     pp_is_last_stage := pp_rank =? pp - 1;
     tp_size := tp; cp_size := cp; pp_size := pp; dp_size := dp;
     tp_world_size := tp; pp_world_size := pp;
     cp_dp_world_size := cp * dp |}.

Definition toy_model : @Model toy_torch :=
  @Build_Model toy_torch 2 0%Q None false.

Definition toy_loader (n : Z) : @DataLoader toy_torch :=
  @Build_DataLoader toy_torch n 1 n 8 0%nat.

Definition toy_data_parallel (m : @Model toy_torch) : @Model toy_torch :=
  @Build_Model toy_torch (weights m) (grad m) (Some true) true.

Definition toy_runtime : @Runtime toy_torch :=
  @Build_Runtime toy_torch
    toy_pgm                                  (* setup_process_group_manager *)
    (fun _ => toy_model)                     (* Llama *)
    (fun c => toy_loader (GRAD_ACC c))       (* MicroBatchDataLoader *)
    (fun m => m)                             (* TensorParallel *)
    (fun m => m)                             (* PipelineParallel *)
    toy_data_parallel                        (* DataParallel *)
    (fun _ => 0)                             (* AdamW *)
    (fun w opt _ => ((150, 1200), (w, opt))) (* load_checkpoint *)
    (fun _ => 0%Q)                           (* zero_grad *)
    (fun w _ opt => (w, opt + 1))            (* optimizer_step *)
    (fun _ => 0%Q)                           (* reset *)
    (fun _ g f d _ => (0%Q, (g, f, iterator d)))
                                             (* train_step_pipeline_afab *)
    (fun _ l _ => l)                         (* all_reduce_loss_across_dp_cp_ranks *)
    (fun cpu _ => cpu).                      (* device_of *)

Definition toy_config : Config := {|
  SEQ_LEN := 8;
  MAX_TOKENS := None;
  TOTAL_TRAIN_STEPS := 4;
  GRAD_ACC := 3;
  USE_WANDB := true;
  TP_SIZE := 1;
  PP_SIZE := 1;
  DP_SIZE := 2;
  CP_SIZE := 1;
  LOAD_PATH := None;
  CHECKPOINT_DIR := "ckpt";
  CHECKPOINT_FREQ := 2;
  use_cpu := true;
  FLASH_ATTEN := "0"
|}.

Definition toy_environ : Environ :=
  {| LOCAL_RANK := 0; WORLD_SIZE := 2; bf16_supported := false |}.

(** The loop variables of rank 0 of the instance at step [s]. *)
Definition toy_vars (s tok : Z) (has : bool) : @LoopVars toy_torch :=
  @Build_LoopVars toy_torch
    (@Build_Model toy_torch 2 0%Q (Some true) has) (toy_loader 3) 0 tok s.

(** The same configuration with a sequence length that the context-parallel
    size does not divide. *)
Definition toy_config_cp3 : Config := {|
  SEQ_LEN := 8;
  MAX_TOKENS := None;
  TOTAL_TRAIN_STEPS := 4;
  GRAD_ACC := 3;
  USE_WANDB := true;
  TP_SIZE := 1;
  PP_SIZE := 1;
  DP_SIZE := 2;
  CP_SIZE := 3;
  LOAD_PATH := None;
  CHECKPOINT_DIR := "ckpt";
  CHECKPOINT_FREQ := 2;
  use_cpu := true;
  FLASH_ATTEN := "0"
|}.

(** The same configuration resuming from a checkpoint. *)
Definition toy_config_resume : Config := {|
  SEQ_LEN := 8;
  MAX_TOKENS := None;
  TOTAL_TRAIN_STEPS := 152;
  GRAD_ACC := 3;
  USE_WANDB := true;
  TP_SIZE := 1;
  PP_SIZE := 1;
  DP_SIZE := 2;
  CP_SIZE := 1;
  LOAD_PATH := Some "ckpt/150";
  CHECKPOINT_DIR := "ckpt";
  CHECKPOINT_FREQ := 2;
  use_cpu := true;
  FLASH_ATTEN := "0"
|}.

(** A three-stage pipeline over the same tensors, with a gradient
    accumulation that is sensitive to the order of the backward passes. *)
Definition toy_stage_model : @StageModel toy_torch :=
  @Build_StageModel toy_torch
    (fun w input batch =>
       w * (match input with Some x => x | None => fst batch end) + 1)
    (fun out batch => inject_Z (out - snd batch))
    (fun w batch a g grad =>
       let gz := match g with Some x => x | None => 1 end in
       (Qred (2 * grad + inject_Z (act_output a + gz))%Q,
        w * gz + act_output a)).

Definition toy_pipeline : @Pipeline toy_torch :=
  @Build_Pipeline toy_torch
    [(2, 0%Q); (3, 0%Q); (5, 0%Q)]
    (fun i => (Z.of_nat i + 1, 1))
    4%nat.

Definition toy_single_stage : @Stage toy_torch :=
  @Build_Stage toy_torch true true 2 (fun i => (Z.of_nat i + 1, 1)) 2%nat.

(** The topology of the four-rank scenario: tensor 1, pipeline 2, data 2,
    context 1. *)
Definition toy_topology : Topology :=
  {| tensor_size := 1; context_size := 1; pipeline_size := 2; data_size := 2 |}.

(** A topology with all four axes in use: 2 x 2 x 2 x 3 ranks. *)
Definition toy_topology_4d : Topology :=
  {| tensor_size := 2; context_size := 2; pipeline_size := 2; data_size := 3 |}.

Definition toy_float_div (q : Q) (n : nat) : Q :=
  Qred (q / inject_Z (Z.of_nat n)).

Definition toy_local_loss (r : nat) : Q := inject_Z (Z.of_nat r + 1).

(** The same configuration with a checkpoint frequency of 0. *)
Definition toy_config_freq0 : Config := {|
  SEQ_LEN := 8;
  MAX_TOKENS := None;
  TOTAL_TRAIN_STEPS := 4;
  GRAD_ACC := 3;
  USE_WANDB := true;
  TP_SIZE := 1;
  PP_SIZE := 1;
  DP_SIZE := 2;
  CP_SIZE := 1;
  LOAD_PATH := None;
  CHECKPOINT_DIR := "ckpt";
  CHECKPOINT_FREQ := 0;
  use_cpu := true;
  FLASH_ATTEN := "0"
|}.

(** The same configuration asking for the fused kernels on a CPU. *)
Definition toy_config_flash : Config := {|
  SEQ_LEN := 8;
  MAX_TOKENS := None;
  TOTAL_TRAIN_STEPS := 4;
  GRAD_ACC := 3;
  USE_WANDB := true;
  TP_SIZE := 1;
  PP_SIZE := 1;
  DP_SIZE := 2;
  CP_SIZE := 1;
  LOAD_PATH := None;
  CHECKPOINT_DIR := "ckpt";
  CHECKPOINT_FREQ := 2;
  use_cpu := true;
  FLASH_ATTEN := "1"
|}.

(** The same configuration with a token budget of 60 tokens. *)
Definition toy_config_budget : Config := {|
  SEQ_LEN := 8;
  MAX_TOKENS := Some 60;
  TOTAL_TRAIN_STEPS := 10;
  GRAD_ACC := 3;
  USE_WANDB := true;
  TP_SIZE := 1;
  PP_SIZE := 1;
  DP_SIZE := 2;
  CP_SIZE := 1;
  LOAD_PATH := None;
  CHECKPOINT_DIR := "ckpt";
  CHECKPOINT_FREQ := 2;
  use_cpu := true;
  FLASH_ATTEN := "0"
|}.

(** * Properties *)

Section DriverFacts.

Context {T : Torch} {R : Runtime}.

Lemma in_py_range (n i : Z) : In i (py_range n) <-> 0 <= i < n.
Proof.
  unfold py_range. rewrite in_map_iff. split.
  - intros [k [<- Hk]]. apply in_seq in Hk. lia.
  - intros H. exists (Z.to_nat i). split; [lia|]. apply in_seq. lia.
Qed.

Lemma trace_bind {A B} (m : M A) (k : A -> M B) :
  trace (bind m k)
  = trace m ++ match result m with Ok a => trace (k a) | Raise _ => [] end.
Proof.
  destruct m as [t [a|e]]; simpl.
  - destruct (k a); reflexivity.
  - now rewrite app_nil_r.
Qed.

Lemma result_bind {A B} (m : M A) (k : A -> M B) :
  result (bind m k)
  = match result m with Ok a => result (k a) | Raise e => Raise e end.
Proof.
  destruct m as [t [a|e]]; simpl; [destruct (k a)|]; reflexivity.
Qed.

Lemma sync_flag_idem r n f i j :
  sync_flag r n (sync_flag r n f i) j = sync_flag r n f j.
Proof. now destruct r. Qed.

Lemma train_step_body_run r dev i v :
  exists v',
    train_step_body r dev i v
    = (micro_batch_events r (grad_acc (data_loader v))
         (require_backward_grad_sync (model v)) i, Ok v')
    /\ acc_loss v'
       = float_add (acc_loss v)
           (item (scalar_div
              (micro_batch_cross_entropy (weights (model v)) dev
                 (fst (next_batch (iterator (data_loader v)))))
              (grad_acc (data_loader v))))
    /\ weights (model v') = weights (model v)
    /\ has_reset (model v') = has_reset (model v)
    /\ require_backward_grad_sync (model v')
       = sync_flag r (grad_acc (data_loader v))
           (require_backward_grad_sync (model v)) i
    /\ data_loader v'
       = set_iterator (data_loader v)
           (snd (next_batch (iterator (data_loader v)))).
Proof.
  unfold train_step_body, micro_batch_events, sync_flag.
  destruct (next_batch (iterator (data_loader v))) as [b it] eqn:Hb.
  destruct r; simpl; eexists; (split; [reflexivity|]); simpl; auto 10.
Qed.

Lemma for_each_train_step r dev l : forall v,
  exists v',
    for_each l (train_step_body r dev) v
    = (flat_map (micro_batch_events r (grad_acc (data_loader v))
                   (require_backward_grad_sync (model v))) l, Ok v')
    /\ acc_loss v'
       = fold_left float_add
           (map (micro_batch_loss (weights (model v)) dev
                   (grad_acc (data_loader v)))
                (micro_batches (List.length l) (iterator (data_loader v))))
           (acc_loss v)
    /\ weights (model v') = weights (model v)
    /\ has_reset (model v') = has_reset (model v)
    /\ grad_acc (data_loader v') = grad_acc (data_loader v).
Proof.
  induction l as [|i l IH]; intros v.
  - exists v. simpl. auto.
  - destruct (train_step_body_run r dev i v)
      as (v1 & E1 & Hacc & Hw & Hr & Hf & Hd).
    destruct (IH v1) as (v2 & E2 & Hacc2 & Hw2 & Hr2 & Hn2).
    assert (Hn : grad_acc (data_loader v1) = grad_acc (data_loader v))
      by (rewrite Hd; reflexivity).
    exists v2. simpl for_each. rewrite E1. unfold bind at 1. rewrite E2.
    rewrite Hn, Hf. repeat split.
    + cbn [flat_map]. f_equal. f_equal.
      apply flat_map_ext. intros j. unfold micro_batch_events.
      now rewrite sync_flag_idem.
    + rewrite Hacc2, Hacc, Hw, Hn, Hd. simpl.
      destruct (next_batch (iterator (data_loader v))) as [b it].
      reflexivity.
    + congruence.
    + congruence.
    + congruence.
Qed.

Lemma train_step_run pgm m d dev :
  exists v',
    train_step pgm m d dev
    = (flat_map (micro_batch_events (cp_dp_world_size pgm >? 1) (grad_acc d)
                   (require_backward_grad_sync m)) (py_range (grad_acc d)),
       Ok v')
    /\ acc_loss v'
       = fold_left float_add
           (map (micro_batch_loss (weights m) dev (grad_acc d))
                (micro_batches (Z.to_nat (grad_acc d)) (iterator d)))
           float_zero
    /\ weights (model v') = weights m
    /\ has_reset (model v') = has_reset m
    /\ grad_acc (data_loader v') = grad_acc d.
Proof.
  unfold train_step, for_range.
  destruct (for_each_train_step (cp_dp_world_size pgm >? 1) dev
              (py_range (grad_acc d))
              {| acc_loss := float_zero; model := m; data_loader := d |})
    as (v' & E & Hacc & Hw & Hr & Hn).
  exists v'. simpl in *. rewrite E. repeat split; auto.
  rewrite Hacc. unfold py_range. now rewrite length_map, length_seq.
Qed.

Lemma grad_sync_assignments_app t1 t2 :
  grad_sync_assignments (t1 ++ t2)
  = grad_sync_assignments t1 ++ grad_sync_assignments t2.
Proof. unfold grad_sync_assignments. apply flat_map_app. Qed.

Lemma backward_calls_app t1 t2 :
  backward_calls (t1 ++ t2) = backward_calls t1 ++ backward_calls t2.
Proof. unfold backward_calls. apply flat_map_app. Qed.

Lemma in_grad_sync_assignments t i b :
  In (i, b) (grad_sync_assignments t) <-> In (EvSetGradSync i b) t.
Proof.
  unfold grad_sync_assignments. rewrite in_flat_map. split.
  - intros [e [He Hin]]. destruct e; simpl in Hin; try tauto.
    destruct Hin as [Heq|[]]. now inversion Heq; subst.
  - intros H. exists (EvSetGradSync i b). simpl. auto.
Qed.

Lemma in_backward_calls t i s :
  In (i, s) (backward_calls t) <-> In (EvBackward i s) t.
Proof.
  unfold backward_calls. rewrite in_flat_map. split.
  - intros [e [He Hin]]. destruct e; simpl in Hin; try tauto.
    destruct Hin as [Heq|[]]. now inversion Heq; subst.
  - intros H. exists (EvBackward i s). simpl. auto.
Qed.

Lemma assignments_when_required n f l :
  grad_sync_assignments (flat_map (micro_batch_events true n f) l)
  = map (fun i => (i, i =? n - 1)) l.
Proof.
  induction l as [|i l IH]; [reflexivity|].
  cbn [flat_map map]. rewrite grad_sync_assignments_app, IH. reflexivity.
Qed.

Lemma backward_calls_of_step r n f l :
  backward_calls (flat_map (micro_batch_events r n f) l)
  = map (fun i => (i, sync_flag r n f i)) l.
Proof.
  induction l as [|i l IH]; [reflexivity|].
  cbn [flat_map map]. rewrite backward_calls_app, IH.
  destruct r; reflexivity.
Qed.

(** C1. With a combined context+data world size above 1, [train_step]
    assigns [require_backward_grad_sync] once per micro-batch, in
    micro-batch order, to [False] for every index [i < grad_acc - 1] and to
    [True] for [i = grad_acc - 1]; each backward pass runs under the value
    assigned for its micro-batch, so only the last one synchronises. *)
Theorem train_step_suppresses_sync pgm m d dev :
  cp_dp_world_size pgm > 1 ->
  let n := grad_acc d in
  let t := trace (train_step pgm m d dev) in
  grad_sync_assignments t = map (fun i => (i, i =? n - 1)) (py_range n)
  /\ backward_calls t = map (fun i => (i, Some (i =? n - 1))) (py_range n)
  /\ (forall i b, In (EvSetGradSync i b) t
                  <-> 0 <= i < n /\ b = (i =? n - 1))
  /\ (forall i s, In (EvBackward i s) t
                  <-> 0 <= i < n /\ s = Some (i =? n - 1)).
Proof.
  intros Hw n t.
  assert (Hr : (cp_dp_world_size pgm >? 1) = true) by (apply Z.gtb_lt; lia).
  destruct (train_step_run pgm m d dev) as (v & E & _).
  assert (Hs : grad_sync_assignments t
               = map (fun i => (i, i =? n - 1)) (py_range n)).
  { subst t. rewrite E, Hr. apply assignments_when_required. }
  assert (Hb : backward_calls t
               = map (fun i => (i, Some (i =? n - 1))) (py_range n)).
  { subst t. rewrite E, Hr. apply backward_calls_of_step. }
  split; [exact Hs|]. split; [exact Hb|].
  split; intros i x; split.
  - intros H. apply in_grad_sync_assignments in H. rewrite Hs in H.
    apply in_map_iff in H. destruct H as [j [Hj Hin]].
    inversion Hj; subst. split; [now apply in_py_range | reflexivity].
  - intros [Hi ->]. apply in_grad_sync_assignments. rewrite Hs.
    apply in_map_iff. exists i. split; [reflexivity|]. now apply in_py_range.
  - intros H. apply in_backward_calls in H. rewrite Hb in H.
    apply in_map_iff in H. destruct H as [j [Hj Hin]].
    inversion Hj; subst. split; [now apply in_py_range | reflexivity].
  - intros [Hi ->]. apply in_backward_calls. rewrite Hb.
    apply in_map_iff. exists i. split; [reflexivity|]. now apply in_py_range.
Qed.

(** C4. [train_step] returns, as its accumulated loss, the sum over the
    [grad_acc] micro-batches it fetched of each micro-batch's mean
    cross-entropy divided by [grad_acc], added up in micro-batch order from
    [0.0]. *)
Theorem train_step_accumulated_loss pgm m d dev :
  exists v,
    result (train_step pgm m d dev) = Ok v
    /\ acc_loss v
       = fold_left float_add
           (map (fun batch =>
                   item (scalar_div
                           (micro_batch_cross_entropy (weights m) dev batch)
                           (grad_acc d)))
                (micro_batches (Z.to_nat (grad_acc d)) (iterator d)))
           float_zero.
Proof.
  destruct (train_step_run pgm m d dev) as (v & E & Hacc & _).
  exists v. rewrite E. split; [reflexivity|]. exact Hacc.
Qed.

(** C10. With [grad_acc = 0] the micro-batch loop of [train_step] never
    runs: no batch is fetched, the model is not called, the flag is not
    assigned, nothing is divided, no exception is raised, the model and the
    data loader are left as they were and the accumulated loss is [0.0]. *)
Theorem train_step_zero_grad_acc pgm m d dev :
  grad_acc d = 0 ->
  train_step pgm m d dev
  = ([], Ok {| acc_loss := float_zero; model := m; data_loader := d |}).
Proof.
  intros H. unfold train_step, for_range. rewrite H. reflexivity.
Qed.

(** ** The training loop *)

Lemma dispatch_step_run pgm dev m d :
  exists m' d',
    dispatch_step pgm dev m d
    = (step_events pgm m d, Ok (step_loss pgm dev m d, (m', d')))
    /\ has_reset m' = has_reset m.
Proof.
  unfold dispatch_step, step_events, step_loss.
  destruct (pp_world_size pgm >? 1).
  - destruct (train_step_pipeline_afab (weights m) (grad m)
                (require_backward_grad_sync m) d dev) as [loss [[g f] it]].
    simpl. eexists _, _. split; reflexivity.
  - destruct (train_step_run pgm m d dev) as (v & E & Hacc & Hw & Hr & Hn).
    rewrite E. simpl. exists (model v), (data_loader v).
    rewrite Hacc, app_nil_r. split; [reflexivity | exact Hr].
Qed.

Lemma loop_body_run c e pgm dev tps v :
  trace (loop_body c e pgm dev tps v) = iteration_events c pgm dev tps v
  /\ match py_mod (step v + 1) (CHECKPOINT_FREQ c) with
     | Some _ =>
         exists v', result (loop_body c e pgm dev tps v) = Ok v'
                    /\ step v' = step v + 1
                    /\ trained_tokens v' = trained_tokens v + tps
                    /\ has_reset (lv_model v') = has_reset (lv_model v)
     | None => result (loop_body c e pgm dev tps v) = Raise ZeroDivisionError
     end.
Proof.
  unfold loop_body, iteration_events, step_report.
  set (m0 := set_grad (lv_model v) (zero_grad (grad (lv_model v)))).
  destruct (dispatch_step_run pgm dev m0 (lv_loader v)) as (m & d & E & Hr).
  assert (Hr0 : has_reset m = has_reset (lv_model v)) by (rewrite Hr; reflexivity).
  rewrite E. clear E.
  set (loss := step_loss pgm dev m0 (lv_loader v)).
  unfold reset_events, log_events, save_events, mod_or_raise, checkpoint_path.
  unfold when, emit, ret, raise, bind, trace, result.
  destruct (optimizer_step (weights m) (grad m) (lv_optimizer v)) as [w opt].
  rewrite <- Hr0.
  destruct (has_reset m) eqn:Hh; cbn [set_weights has_reset]; rewrite ?Hh;
    destruct (is_wandb_rank pgm); destruct (USE_WANDB c);
    (destruct (py_mod (step v + 1) (CHECKPOINT_FREQ c)) as [r|];
     [destruct (r =? 0)|]);
    cbn [fst snd app];
    rewrite ?app_nil_r, <- ?app_assoc; cbn [fst snd app].
  all: split; [reflexivity|].
  all: try reflexivity.
  all: eexists; split; [reflexivity|]; cbn; auto.
Qed.

Lemma py_range_last n : 0 < n -> py_range n = py_range (n - 1) ++ [n - 1].
Proof.
  intros H. unfold py_range.
  replace (Z.to_nat n) with (S (Z.to_nat (n - 1))) by lia.
  rewrite seq_S, map_app. simpl. f_equal. f_equal. lia.
Qed.

Lemma micro_batch_events_are_step_events r n f i :
  Forall (fun ev => is_step_event ev = true) (micro_batch_events r n f i).
Proof. unfold micro_batch_events. destruct r; repeat constructor. Qed.

Lemma step_events_are_step_events pgm m d :
  Forall (fun ev => is_step_event ev = true) (step_events pgm m d).
Proof.
  unfold step_events. destruct (pp_world_size pgm >? 1).
  - repeat constructor.
  - apply Forall_flat_map. apply Forall_forall. intros i _.
    apply micro_batch_events_are_step_events.
Qed.

Lemma step_events_end_with_sync pgm m d :
  pp_world_size pgm <= 1 -> cp_dp_world_size pgm > 1 -> 0 < grad_acc d ->
  exists before,
    step_events pgm m d = before ++ [EvBackward (grad_acc d - 1) (Some true)].
Proof.
  intros Hpp Hcp Hn. unfold step_events.
  replace (pp_world_size pgm >? 1) with false by (symmetry; rewrite Z.gtb_ltb; apply Z.ltb_ge; lia).
  replace (cp_dp_world_size pgm >? 1) with true by (symmetry; apply Z.gtb_lt; lia).
  rewrite (py_range_last Hn), flat_map_app. cbn [flat_map].
  unfold micro_batch_events at 2, sync_flag.
  rewrite Z.eqb_refl, app_nil_r.
  eexists (_ ++ [_; _; _]). rewrite <- app_assoc. reflexivity.
Qed.

Lemma not_step_event_after c pgm r s t ev :
  In ev (reset_events (has_reset r) ++ log_events c pgm s ++ save_events c (rep_step s) t) ->
  is_step_event ev = false /\ is_loss_reduction ev = false
  /\ is_optimizer_step ev = false.
Proof.
  unfold reset_events, log_events, save_events.
  destruct (has_reset r), (is_wandb_rank pgm), (USE_WANDB c),
    (py_mod (rep_step s) (CHECKPOINT_FREQ c)) as [x|]; try destruct (x =? 0);
    cbn; intuition (subst; auto).
Qed.

(** X14. In every iteration of the training loop the script issues its calls
    in this order: [zero_grad], the calls of the training step (the last of
    which, without pipeline parallelism and with context+data parallelism on,
    is the backward pass that runs with the synchronisation flag set), then
    the one loss reduction, then at once the one optimizer step; no call of
    the training step is issued after the loss reduction.  This is the order
    in which the calls are made; what a collaborator leaves running when it
    returns is outside it. *)
Theorem iteration_order c e pgm dev tps v :
  exists steps loss rest,
    trace (loop_body c e pgm dev tps v)
    = EvZeroGrad :: steps ++ EvAllReduceLoss loss :: EvOptimizerStep :: rest
    /\ steps
       = trace (dispatch_step pgm dev
                  (set_grad (lv_model v) (zero_grad (grad (lv_model v))))
                  (lv_loader v))
    /\ Forall (fun ev => is_step_event ev = true) steps
    /\ Forall (fun ev => is_step_event ev = false
                         /\ is_loss_reduction ev = false
                         /\ is_optimizer_step ev = false) rest
    /\ (pp_world_size pgm <= 1 -> cp_dp_world_size pgm > 1 ->
        0 < grad_acc (lv_loader v) ->
        exists before,
          steps = before
                  ++ [EvBackward (grad_acc (lv_loader v) - 1) (Some true)]).
Proof.
  destruct (loop_body_run c e pgm dev tps v) as [Ht _].
  set (m0 := set_grad (lv_model v) (zero_grad (grad (lv_model v)))).
  destruct (dispatch_step_run pgm dev m0 (lv_loader v)) as (m & d & E & _).
  exists (step_events pgm m0 (lv_loader v)),
         (step_loss pgm dev m0 (lv_loader v)),
         (reset_events (has_reset (lv_model v))
          ++ log_events c pgm (step_report pgm dev tps v)
          ++ save_events c (step v + 1) (trained_tokens v + tps)).
  split; [exact Ht|]. split; [now rewrite E|].
  split; [apply step_events_are_step_events|]. split.
  - apply Forall_forall. intros ev Hin.
    exact (@not_step_event_after c pgm (lv_model v)
             (step_report pgm dev tps v) (trained_tokens v + tps) ev Hin).
  - intros Hpp Hcp Hn. now apply step_events_end_with_sync.
Qed.

Lemma in_iteration_events c pgm dev tps v ev :
  In ev (iteration_events c pgm dev tps v)
  <-> ev = EvZeroGrad
      \/ In ev (step_events pgm
                  (set_grad (lv_model v) (zero_grad (grad (lv_model v))))
                  (lv_loader v))
      \/ ev = EvAllReduceLoss
                (step_loss pgm dev
                   (set_grad (lv_model v) (zero_grad (grad (lv_model v))))
                   (lv_loader v))
      \/ ev = EvOptimizerStep
      \/ In ev (reset_events (has_reset (lv_model v)))
      \/ In ev (log_events c pgm (step_report pgm dev tps v))
      \/ In ev (save_events c (step v + 1) (trained_tokens v + tps)).
Proof.
  unfold iteration_events. cbn [In]. rewrite in_app_iff. cbn [In].
  rewrite !in_app_iff. intuition auto.
Qed.

Lemma filter_step_events (f : event -> bool) pgm m d :
  (forall ev, is_step_event ev = true -> f ev = false) ->
  filter f (step_events pgm m d) = [].
Proof.
  intros H. pose proof (step_events_are_step_events pgm m d) as Hs.
  induction Hs as [|ev l Hev _ IH]; [reflexivity|].
  cbn. now rewrite (H ev Hev).
Qed.

Lemma is_wandb_rank_spec pgm :
  is_wandb_rank pgm = true
  <-> tp_rank pgm = 0 /\ dp_rank pgm = 0 /\ cp_rank pgm = 0
      /\ pp_is_last_stage pgm = true.
Proof.
  unfold is_wandb_rank. rewrite !andb_true_iff, !Z.eqb_eq. tauto.
Qed.

(** C7. In every iteration of the training loop, the per-step log line and
    the metrics upload are issued only by the rank with tensor, data and
    context coordinate 0 on the last pipeline stage: that rank writes exactly
    one log line (with the step index, the reduced loss, the tokens per step
    and the cumulative trained tokens), every other rank writes none; the
    upload happens on that rank, and there only when metrics are enabled. *)
Theorem step_log_on_reporting_rank_only c e pgm dev tps v :
  let t := trace (loop_body c e pgm dev tps v) in
  let reporting :=
    tp_rank pgm = 0 /\ dp_rank pgm = 0 /\ cp_rank pgm = 0
    /\ pp_is_last_stage pgm = true in
  ((exists r, In (EvStepLog true r) t) <-> reporting)
  /\ (reporting ->
      filter is_emitted_step_log t
      = [EvStepLog true (step_report pgm dev tps v)])
  /\ (~ reporting -> forall b r, ~ In (EvStepLog b r) t)
  /\ ((exists r, In (EvWandbLog r) t) <-> reporting /\ USE_WANDB c = true)
  /\ count is_metrics_upload t = (if is_wandb_rank pgm && USE_WANDB c then 1 else 0)%nat.
Proof.
  intros t reporting.
  destruct (loop_body_run c e pgm dev tps v) as [Ht _].
  subst t. rewrite Ht. clear Ht.
  assert (Hrep : is_wandb_rank pgm = true <-> reporting)
    by apply is_wandb_rank_spec.
  assert (Hlog : forall ev,
            In ev (iteration_events c pgm dev tps v) ->
            (exists b r, ev = EvStepLog b r) \/ (exists r, ev = EvWandbLog r) ->
            In ev (log_events c pgm (step_report pgm dev tps v))).
  { intros ev Hin Hk. apply in_iteration_events in Hin.
    destruct Hin as [->|[Hin|[->|[->|[Hin|[Hin|Hin]]]]]];
      try (destruct Hk as [(b & r & Hk)|(r & Hk)]; discriminate); auto.
    - pose proof (step_events_are_step_events pgm
                    (set_grad (lv_model v) (zero_grad (grad (lv_model v))))
                    (lv_loader v)) as Hs.
      rewrite Forall_forall in Hs. specialize (Hs ev Hin).
      destruct Hk as [(b & r & ->)|(r & ->)]; discriminate.
    - unfold reset_events in Hin. destruct (has_reset (lv_model v));
        [destruct Hin as [<-|[]]|destruct Hin];
        destruct Hk as [(b & r & Hk)|(r & Hk)]; discriminate.
    - unfold save_events in Hin.
      destruct (py_mod (step v + 1) (CHECKPOINT_FREQ c)) as [x|];
        [destruct (x =? 0)|]; try destruct Hin as [<-|[]]; try destruct Hin;
        destruct Hk as [(b & r & Hk)|(r & Hk)]; discriminate. }
  assert (Hflt : forall f,
            (forall ev, is_step_event ev = true -> f ev = false) ->
            f EvZeroGrad = false -> f EvOptimizerStep = false ->
            f EvReset = false ->
            (forall l, f (EvAllReduceLoss l) = false) ->
            (forall a b p, f (EvSaveCheckpoint a b p) = false) ->
            filter f (iteration_events c pgm dev tps v)
            = filter f (log_events c pgm (step_report pgm dev tps v))).
  { intros f H1 H2 H3 H4 H5 H6. unfold iteration_events.
    cbn [filter]. rewrite H2, filter_app. cbn [filter].
    rewrite (filter_step_events f _ _ _ H1), H5, H3, !filter_app.
    unfold reset_events, save_events.
    destruct (has_reset (lv_model v)); cbn [filter app]; rewrite ?H4;
      (destruct (py_mod (step v + 1) (CHECKPOINT_FREQ c)) as [x|];
       [destruct (x =? 0)|]); cbn [filter]; rewrite ?H6, ?app_nil_r;
      reflexivity. }
  split; [split|split; [|split; [|split; [split|]]]].
  - intros [r Hin]. apply Hrep. apply Hlog in Hin; [|left; eauto].
    unfold log_events in Hin. destruct (is_wandb_rank pgm); [reflexivity|].
    destruct Hin.
  - intros H. apply Hrep in H. exists (step_report pgm dev tps v).
    apply in_iteration_events. do 5 right. left.
    unfold log_events. rewrite H. left. reflexivity.
  - intros H. apply Hrep in H.
    rewrite Hflt by (try reflexivity; intros ev; destruct ev; cbn; congruence).
    unfold log_events. rewrite H. destruct (USE_WANDB c); reflexivity.
  - intros Hn b r Hin. apply Hlog in Hin; [|left; eauto].
    unfold log_events in Hin.
    destruct (is_wandb_rank pgm) eqn:Hw; [apply Hn, Hrep; reflexivity|].
    destruct Hin.
  - intros [r Hin]. apply Hlog in Hin; [|right; eauto].
    unfold log_events in Hin.
    destruct (is_wandb_rank pgm) eqn:Hw; [|destruct Hin].
    split; [apply Hrep; reflexivity|].
    destruct (USE_WANDB c); [reflexivity|].
    destruct Hin as [Hin|[]]. discriminate.
  - intros [H Hu]. apply Hrep in H. exists (step_report pgm dev tps v).
    apply in_iteration_events. do 5 right. left.
    unfold log_events. rewrite H, Hu. right. left. reflexivity.
  - unfold count.
    rewrite Hflt by (try reflexivity; intros ev; destruct ev; cbn; congruence).
    unfold log_events.
    destruct (is_wandb_rank pgm), (USE_WANDB c); reflexivity.
Qed.

(** *** The loop as a sequence of iterations *)

Lemma training_loop_trace c e pgm dev tps fuel : forall v,
  trace (training_loop fuel c e pgm dev tps v)
  = flat_map (iteration_events c pgm dev tps)
      (iterations fuel c e pgm dev tps v).
Proof.
  induction fuel as [|fuel IH]; intros v; [reflexivity|].
  cbn [training_loop iterations].
  destruct (loop_guard c v); [|reflexivity].
  rewrite trace_bind. cbn [flat_map].
  destruct (loop_body_run c e pgm dev tps v) as [Ht _]. rewrite Ht. f_equal.
  destruct (result (loop_body c e pgm dev tps v)) as [v'|x]; [|reflexivity].
  destruct (step v' >=? TOTAL_TRAIN_STEPS c); [reflexivity | apply IH].
Qed.

(** The loop always leaves through its guard, its [break] or an exception:
    the bound on the iterations is never the reason it stops. *)
Lemma training_loop_terminates c e pgm dev tps fuel : forall v,
  (iterations_bound c v <= fuel)%nat ->
  result (training_loop fuel c e pgm dev tps v) <> Ok None.
Proof.
  unfold iterations_bound.
  induction fuel as [|fuel IH]; intros v Hf; [lia|].
  cbn [training_loop]. destruct (loop_guard c v); [|discriminate].
  rewrite result_bind.
  destruct (loop_body_run c e pgm dev tps v) as [_ Hr].
  destruct (py_mod (step v + 1) (CHECKPOINT_FREQ c)).
  - destruct Hr as (v' & -> & Hs & _).
    destruct (step v' >=? TOTAL_TRAIN_STEPS c) eqn:Hb; [discriminate|].
    apply IH. rewrite Z.geb_leb in Hb. apply Z.leb_gt in Hb. lia.
  - rewrite Hr. discriminate.
Qed.

(** Beyond the bound the number of iterations allowed does not matter: the
    loop of the script is the loop run with [iterations_bound]. *)
Lemma training_loop_fuel c e pgm dev tps : forall fuel1 fuel2 v,
  (iterations_bound c v <= fuel1)%nat ->
  (iterations_bound c v <= fuel2)%nat ->
  training_loop fuel1 c e pgm dev tps v
  = training_loop fuel2 c e pgm dev tps v.
Proof.
  unfold iterations_bound.
  induction fuel1 as [|fuel1 IH]; intros fuel2 v H1 H2; [lia|].
  destruct fuel2 as [|fuel2]; [lia|].
  cbn [training_loop]. destruct (loop_guard c v); [|reflexivity].
  destruct (loop_body_run c e pgm dev tps v) as [_ Hr].
  destruct (loop_body c e pgm dev tps v) as [t [v'|x]]; [|reflexivity].
  cbn [result snd] in Hr.
  destruct (py_mod (step v + 1) (CHECKPOINT_FREQ c)); [|discriminate].
  destruct Hr as (v1 & Hv & Hs & _). injection Hv as <-.
  cbn [bind]. destruct (step v' >=? TOTAL_TRAIN_STEPS c) eqn:Hb;
    [reflexivity|].
  rewrite Z.geb_leb in Hb. apply Z.leb_gt in Hb.
  rewrite (IH fuel2 v') by lia. reflexivity.
Qed.

Lemma iterations_steps c e pgm dev tps fuel : forall v v',
  In v' (iterations fuel c e pgm dev tps v) -> step v <= step v'.
Proof.
  induction fuel as [|fuel IH]; intros v v' Hin; [destruct Hin|].
  cbn [iterations] in Hin. destruct (loop_guard c v); [|destruct Hin].
  destruct Hin as [<-|Hin]; [lia|].
  destruct (loop_body_run c e pgm dev tps v) as [_ Hr].
  destruct (py_mod (step v + 1) (CHECKPOINT_FREQ c)).
  - destruct Hr as (v1 & E & Hs & _). rewrite E in Hin.
    destruct (step v1 >=? TOTAL_TRAIN_STEPS c); [destruct Hin|].
    apply IH in Hin. lia.
  - rewrite Hr in Hin. destruct Hin.
Qed.

(** *** Checkpoints *)

Lemma py_mod_zero_iff a b :
  py_mod a b = Some 0 <-> b <> 0 /\ (b | a).
Proof.
  unfold py_mod. destruct (Z.eqb_spec b 0) as [->|Hb].
  - split; [discriminate | intros [H _]; congruence].
  - split.
    + intros H. injection H as H. split; [assumption|].
      now apply Z.mod_divide.
    + intros [_ H]. f_equal. now apply Z.mod_divide.
Qed.

Lemma save_events_spec c s tok :
  0 < s ->
  save_events c s tok
  = [EvSaveCheckpoint s tok (checkpoint_path c s)]
    /\ positive_multiple s (CHECKPOINT_FREQ c)
  \/ save_events c s tok = [] /\ ~ positive_multiple s (CHECKPOINT_FREQ c).
Proof.
  intros Hs. unfold save_events, positive_multiple.
  destruct (py_mod s (CHECKPOINT_FREQ c)) as [r|] eqn:E.
  - destruct (Z.eqb_spec r 0) as [->|Hr].
    + left. apply py_mod_zero_iff in E. tauto.
    + right. split; [reflexivity|]. intros [_ Hd].
      assert (py_mod s (CHECKPOINT_FREQ c) = Some 0).
      { apply py_mod_zero_iff. split; [|assumption].
        unfold py_mod in E. destruct (CHECKPOINT_FREQ c =? 0) eqn:Hz;
          [discriminate|]. now apply Z.eqb_neq. }
      congruence.
  - right. split; [reflexivity|]. intros [_ Hd].
    unfold py_mod in E. destruct (Z.eqb_spec (CHECKPOINT_FREQ c) 0) as [Hz|];
      [|discriminate].
    rewrite Hz in Hd. apply Z.divide_0_l in Hd. lia.
Qed.

Lemma filter_iteration_events (f : event -> bool) c pgm dev tps v :
  (forall ev, is_step_event ev = true -> f ev = false) ->
  f EvZeroGrad = false ->
  (forall l, f (EvAllReduceLoss l) = false) ->
  filter f (iteration_events c pgm dev tps v)
  = filter f [EvOptimizerStep]
    ++ filter f (reset_events (has_reset (lv_model v)))
    ++ filter f (log_events c pgm (step_report pgm dev tps v))
    ++ filter f (save_events c (step v + 1) (trained_tokens v + tps)).
Proof.
  intros H1 H2 H3. unfold iteration_events.
  cbn [filter]. rewrite H2, filter_app, (filter_step_events f _ _ _ H1).
  cbn [filter app]. rewrite H3.
  destruct (f EvOptimizerStep); cbn [app]; now rewrite !filter_app.
Qed.

Lemma no_load_in_iteration c pgm dev tps v :
  filter is_load (iteration_events c pgm dev tps v) = [].
Proof.
  rewrite filter_iteration_events
    by (try reflexivity; intros ev; destruct ev; cbn; congruence).
  unfold reset_events, log_events, save_events.
  destruct (has_reset (lv_model v)), (is_wandb_rank pgm), (USE_WANDB c),
    (py_mod (step v + 1) (CHECKPOINT_FREQ c)) as [x|];
    try destruct (x =? 0); reflexivity.
Qed.

Lemma no_load_in_loop c e pgm dev tps fuel v :
  filter is_load (trace (training_loop fuel c e pgm dev tps v)) = [].
Proof.
  rewrite training_loop_trace.
  induction (iterations fuel c e pgm dev tps v) as [|x l IH]; [reflexivity|].
  cbn [flat_map]. now rewrite filter_app, no_load_in_iteration, IH.
Qed.

Lemma restore_run c m d opt :
  exists v0,
    restore c m d opt = (load_events c, Ok v0)
    /\ (step v0, trained_tokens v0)
       = match truthy_path (LOAD_PATH c) with
         | Some path => fst (load_checkpoint (weights m) opt path)
         | None => (0, 0)
         end.
Proof.
  unfold restore, load_events. destruct (truthy_path (LOAD_PATH c)) as [path|].
  - destruct (load_checkpoint (weights m) opt path) as [[s t] [w o]].
    cbn. eexists. split; reflexivity.
  - eexists. split; reflexivity.
Qed.

Lemma train_trace c e s :
  exists v0 rest,
    trace (train c e s)
    = load_events c
      ++ EvBarrier
      :: trace (training_loop (iterations_bound c v0) c e (su_pgm s)
                  (su_device s) (su_tokens_per_step s) v0)
      ++ rest
    /\ result (restore c (su_model s) (su_loader s) (su_optimizer s)) = Ok v0
    /\ filter is_load rest = [].
Proof.
  destruct (restore_run c (su_model s) (su_loader s) (su_optimizer s))
    as (v0 & E & _).
  exists v0.
  exists (match result (training_loop (iterations_bound c v0) c e (su_pgm s)
                          (su_device s) (su_tokens_per_step s) v0) with
          | Ok _ => (if is_wandb_rank (su_pgm s) && USE_WANDB c
                     then [EvWandbFinish] else [])
                    ++ [EvDestroyProcessGroup]
          | Raise _ => []
          end).
  split; [|split; [now rewrite E|]].
  - unfold train. rewrite trace_bind, E. cbn [trace result fst snd].
    f_equal. rewrite trace_bind. cbn [emit trace result fst snd app].
    f_equal. rewrite trace_bind. f_equal.
    destruct (result (training_loop (iterations_bound c v0) c e (su_pgm s)
                        (su_device s) (su_tokens_per_step s) v0));
      [|reflexivity].
    destruct (is_wandb_rank (su_pgm s) && USE_WANDB c); reflexivity.
  - destruct (result (training_loop (iterations_bound c v0) c e (su_pgm s)
                        (su_device s) (su_tokens_per_step s) v0));
      [|reflexivity].
    destruct (is_wandb_rank (su_pgm s) && USE_WANDB c); reflexivity.
Qed.

Lemma setup_run c e :
  exists t s,
    setup c e = (t, Ok s)
    /\ filter is_load t = []
    /\ filter is_step_event t = []
    /\ hd_error t = Some (EvInitProcessGroup (LOCAL_RANK e) (WORLD_SIZE e)).
Proof.
  unfold setup, wrap_if, when.
  set (pgm := setup_process_group_manager (TP_SIZE c) (CP_SIZE c) (PP_SIZE c)
                (DP_SIZE c) (LOCAL_RANK e) (WORLD_SIZE e)).
  destruct (global_rank pgm =? 0), (is_wandb_rank pgm && USE_WANDB c),
    (tp_world_size pgm >? 1), (pp_world_size pgm >? 1),
    (cp_dp_world_size pgm >? 1);
    cbn; eexists _, _; (split; [reflexivity|]); cbn; auto.
Qed.

Lemma main_run c e :
  kernel_assertion c e = ([], Ok tt) ->
  startup_assertions c e = ([], Ok tt) ->
  main c e = bind (setup c e) (train c e).
Proof.
  intros Hk Hs. unfold main. rewrite Hk. unfold bind at 1.
  rewrite Hs. unfold bind at 1.
  change (fun s : Setup => train c e s) with (train c e).
  destruct (bind (setup c e) (train c e)); reflexivity.
Qed.

(** C8. The checkpoint is saved in exactly those iterations whose step index,
    after its increment, is a positive multiple of [checkpoint_frequency],
    under that step index and the updated token count; the checkpoint is
    loaded once, before the barrier and the first training step, when a load
    path is configured, and not at all otherwise; the loop then starts from
    the step and token counters the load returned. *)
Theorem checkpoint_schedule c e :
  (forall pgm dev tps v,
     0 <= step v ->
     let t := trace (loop_body c e pgm dev tps v) in
     ((exists s tok path, In (EvSaveCheckpoint s tok path) t)
      <-> positive_multiple (step v + 1) (CHECKPOINT_FREQ c))
     /\ (count is_save t <= 1)%nat
     /\ (forall s tok path,
           In (EvSaveCheckpoint s tok path) t ->
           s = step v + 1 /\ tok = trained_tokens v + tps
           /\ path = checkpoint_path c (step v + 1)))
  /\ (forall s,
        exists v0 rest,
          trace (train c e s)
          = load_events c
            ++ EvBarrier
            :: trace (training_loop (iterations_bound c v0) c e (su_pgm s)
                        (su_device s) (su_tokens_per_step s) v0)
            ++ rest
          /\ (step v0, trained_tokens v0)
             = match truthy_path (LOAD_PATH c) with
               | Some path =>
                   fst (load_checkpoint (weights (su_model s))
                          (su_optimizer s) path)
               | None => (0, 0)
               end
          /\ count is_load (trace (train c e s))
             = match truthy_path (LOAD_PATH c) with
               | Some _ => 1%nat
               | None => 0%nat
               end)
  /\ (kernel_assertion c e = ([], Ok tt) ->
      startup_assertions c e = ([], Ok tt) ->
      count is_load (trace (main c e))
      = match truthy_path (LOAD_PATH c) with
        | Some _ => 1%nat
        | None => 0%nat
        end).
Proof.
  assert (Hload : forall s,
            count is_load (trace (train c e s))
            = match truthy_path (LOAD_PATH c) with
              | Some _ => 1%nat
              | None => 0%nat
              end).
  { intros s. destruct (train_trace c e s) as (v0 & rest & Ht & _ & Hrest).
    unfold count. rewrite Ht, filter_app. cbn [filter is_load].
    rewrite filter_app, no_load_in_loop, Hrest. unfold load_events.
    destruct (truthy_path (LOAD_PATH c)); reflexivity. }
  split; [|split].
  - intros pgm dev tps v Hv t.
    destruct (loop_body_run c e pgm dev tps v) as [Ht _]. subst t. rewrite Ht.
    assert (Hin : forall s tok path,
              In (EvSaveCheckpoint s tok path) (iteration_events c pgm dev tps v)
              <-> In (EvSaveCheckpoint s tok path)
                     (save_events c (step v + 1) (trained_tokens v + tps))).
    { intros s tok path. rewrite in_iteration_events. split; [|tauto].
      intros [H|[H|[H|[H|[H|[H|H]]]]]]; try discriminate; auto.
      - pose proof (step_events_are_step_events pgm
                      (set_grad (lv_model v) (zero_grad (grad (lv_model v))))
                      (lv_loader v)) as Hs.
        rewrite Forall_forall in Hs. apply Hs in H. discriminate.
      - unfold reset_events in H. destruct (has_reset (lv_model v));
          [destruct H as [H|[]]; discriminate | destruct H].
      - unfold log_events in H.
        destruct (is_wandb_rank pgm); [|destruct H].
        destruct H as [H|H]; [discriminate|].
        destruct (USE_WANDB c); [destruct H as [H|[]]; discriminate|destruct H]. }
    assert (Hs1 : 0 < step v + 1) by lia.
    destruct (save_events_spec c (trained_tokens v + tps) Hs1)
      as [[Hse Hpm]|[Hse Hpm]].
    + split; [|split].
      * split; [intros _; exact Hpm|]. intros _.
        exists (step v + 1), (trained_tokens v + tps),
               (checkpoint_path c (step v + 1)).
        apply Hin. rewrite Hse. left. reflexivity.
      * unfold count. rewrite filter_iteration_events
          by (try reflexivity; intros ev; destruct ev; cbn; congruence).
        rewrite Hse. unfold reset_events, log_events.
        destruct (has_reset (lv_model v)), (is_wandb_rank pgm), (USE_WANDB c);
          cbn; lia.
      * intros s tok path H. apply Hin in H. rewrite Hse in H.
        destruct H as [H|[]]. injection H as <- <- <-. auto.
    + split; [|split].
      * split; [|intros H; contradiction].
        intros (s & tok & path & H). apply Hin in H. rewrite Hse in H.
        destruct H.
      * unfold count. rewrite filter_iteration_events
          by (try reflexivity; intros ev; destruct ev; cbn; congruence).
        rewrite Hse. unfold reset_events, log_events.
        destruct (has_reset (lv_model v)), (is_wandb_rank pgm), (USE_WANDB c);
          cbn; lia.
      * intros s tok path H. apply Hin in H. rewrite Hse in H. destruct H.
  - intros s. destruct (train_trace c e s) as (v0 & rest & Ht & Hv0 & Hrest).
    exists v0, rest. split; [exact Ht|]. split; [|apply Hload].
    destruct (restore_run c (su_model s) (su_loader s) (su_optimizer s))
      as (v1 & E & Hc). rewrite E in Hv0. injection Hv0 as <-. exact Hc.
  - intros Hk Hs. rewrite (main_run c e Hk Hs).
    destruct (setup_run c e) as (t & s & E & Hl & _).
    rewrite trace_bind, E. cbn [trace result fst snd].
    unfold count. rewrite filter_app, Hl. apply Hload.
Qed.

(** C9. In every iteration, a model that exposes [reset] has it called
    exactly once, right after the optimizer step of that iteration; for a
    model without [reset] nothing is called, and the iteration makes the same
    calls otherwise, ends the same way and leaves the same counters. *)
Theorem reset_hook c e pgm dev tps v :
  let t := trace (loop_body c e pgm dev tps v) in
  count is_reset t = (if has_reset (lv_model v) then 1 else 0)%nat
  /\ (has_reset (lv_model v) = true ->
      exists before after,
        t = before ++ EvOptimizerStep :: EvReset :: after
        /\ count is_optimizer_step before = 0%nat
        /\ count is_optimizer_step after = 0%nat)
  /\ (has_reset (lv_model v) = false -> ~ In EvReset t)
  /\ trace (loop_body c e pgm dev tps (with_reset false v))
     = filter (fun ev => negb (is_reset ev))
         (trace (loop_body c e pgm dev tps (with_reset true v)))
  /\ match result (loop_body c e pgm dev tps (with_reset false v)),
           result (loop_body c e pgm dev tps (with_reset true v)) with
     | Ok a, Ok b => step a = step b /\ trained_tokens a = trained_tokens b
     | Raise x, Raise y => x = y
     | _, _ => False
     end.
Proof.
  intros t.
  destruct (loop_body_run c e pgm dev tps v) as [Ht _]. subst t. rewrite Ht.
  assert (Hcnt : count is_reset (iteration_events c pgm dev tps v)
                 = (if has_reset (lv_model v) then 1 else 0)%nat).
  { unfold count. rewrite filter_iteration_events
      by (try reflexivity; intros ev; destruct ev; cbn; congruence).
    unfold reset_events, log_events, save_events.
    destruct (has_reset (lv_model v)), (is_wandb_rank pgm), (USE_WANDB c),
      (py_mod (step v + 1) (CHECKPOINT_FREQ c)) as [x|];
      try destruct (x =? 0); reflexivity. }
  split; [exact Hcnt|]. split; [|split; [|split]].
  - intros Hh.
    set (m0 := set_grad (lv_model v) (zero_grad (grad (lv_model v)))).
    exists (EvZeroGrad :: step_events pgm m0 (lv_loader v)
            ++ [EvAllReduceLoss (step_loss pgm dev m0 (lv_loader v))]),
           (log_events c pgm (step_report pgm dev tps v)
            ++ save_events c (step v + 1) (trained_tokens v + tps)).
    split; [|split].
    + unfold iteration_events, reset_events. rewrite Hh. fold m0.
      cbn [app]. f_equal. now rewrite <- app_assoc.
    + unfold count. cbn [filter is_optimizer_step].
      rewrite filter_app, filter_step_events
        by (intros ev; destruct ev; cbn; congruence).
      reflexivity.
    + unfold count, log_events, save_events. rewrite filter_app.
      destruct (is_wandb_rank pgm), (USE_WANDB c),
        (py_mod (step v + 1) (CHECKPOINT_FREQ c)) as [x|];
        try destruct (x =? 0); reflexivity.
  - intros Hh Hin. rewrite Hh in Hcnt. unfold count in Hcnt.
    assert (Hf : In EvReset (filter is_reset (iteration_events c pgm dev tps v)))
      by (apply filter_In; split; [assumption | reflexivity]).
    destruct (filter is_reset (iteration_events c pgm dev tps v));
      [destruct Hf | discriminate].
  - destruct (loop_body_run c e pgm dev tps (with_reset false v)) as [-> _].
    destruct (loop_body_run c e pgm dev tps (with_reset true v)) as [-> _].
    unfold iteration_events, step_report. cbn [with_reset lv_model lv_loader
      step trained_tokens grad has_reset set_grad weights
      require_backward_grad_sync reset_events].
    set (m0 := {| weights := weights (lv_model v);
                  grad := zero_grad (grad (lv_model v));
                  require_backward_grad_sync :=
                    require_backward_grad_sync (lv_model v);
                  has_reset := false |}).
    set (m1 := {| weights := weights (lv_model v);
                  grad := zero_grad (grad (lv_model v));
                  require_backward_grad_sync :=
                    require_backward_grad_sync (lv_model v);
                  has_reset := true |}).
    change (step_events pgm m1 (lv_loader v))
      with (step_events pgm m0 (lv_loader v)).
    change (step_loss pgm dev m1 (lv_loader v))
      with (step_loss pgm dev m0 (lv_loader v)).
    cbn [filter is_reset negb app]. f_equal.
    rewrite filter_app. cbn [filter is_reset negb]. f_equal.
    + symmetry. apply forallb_filter_id. apply forallb_forall.
      intros ev Hin.
      pose proof (step_events_are_step_events pgm m0 (lv_loader v)) as Hs.
      rewrite Forall_forall in Hs. apply Hs in Hin.
      destruct ev; try discriminate; reflexivity.
    + f_equal. f_equal. rewrite filter_app. unfold log_events, save_events.
      destruct (is_wandb_rank pgm), (USE_WANDB c),
        (py_mod (step v + 1) (CHECKPOINT_FREQ c)) as [x|];
        try destruct (x =? 0); reflexivity.
  - destruct (loop_body_run c e pgm dev tps (with_reset false v)) as [_ H0].
    destruct (loop_body_run c e pgm dev tps (with_reset true v)) as [_ H1].
    cbn [with_reset step trained_tokens] in H0, H1.
    destruct (py_mod (step v + 1) (CHECKPOINT_FREQ c)).
    + destruct H0 as (a & -> & Ha & Hta & _).
      destruct H1 as (b & -> & Hb & Htb & _). split; congruence.
    + rewrite H0, H1. reflexivity.
Qed.

(** C2. The two startup assertions pass exactly when the sequence length
    leaves remainder 0 modulo the context-parallel size and the world size is
    the product of the four parallel sizes.  When they do not, the script
    stops with an exception before it has called anything; when they do (and
    the kernel-mode assertion before them passed), it goes on to the setup. *)
Theorem startup_preconditions c e :
  let ok :=
    py_mod (SEQ_LEN c) (CP_SIZE c) = Some 0
    /\ WORLD_SIZE e = TP_SIZE c * PP_SIZE c * DP_SIZE c * CP_SIZE c in
  (startup_assertions c e = ([], Ok tt) <-> ok)
  /\ (~ ok -> (exists x, startup_assertions c e = ([], Raise x))
              /\ (exists x, main c e = ([], Raise x)))
  /\ (ok -> kernel_assertion c e = ([], Ok tt) ->
      main c e = bind (setup c e) (train c e)
      /\ hd_error (trace (main c e))
         = Some (EvInitProcessGroup (LOCAL_RANK e) (WORLD_SIZE e))).
Proof.
  intros ok.
  assert (Hcases :
            (startup_assertions c e = ([], Ok tt) /\ ok)
            \/ ((exists x, startup_assertions c e = ([], Raise x)) /\ ~ ok)).
  { unfold startup_assertions, mod_or_raise, py_assert, ok.
    destruct (py_mod (SEQ_LEN c) (CP_SIZE c)) as [r|];
      cbv beta iota delta [bind ret raise].
    - destruct (Z.eqb_spec r 0) as [->|Hr].
      + destruct (Z.eqb_spec (WORLD_SIZE e)
                    (TP_SIZE c * PP_SIZE c * DP_SIZE c * CP_SIZE c)) as [Hw|Hw].
        * left. split; [reflexivity | split; [reflexivity | exact Hw]].
        * right. split; [eexists; reflexivity | tauto].
      + right. split; [eexists; reflexivity|]. intros [H _]. congruence.
    - right. split; [eexists; reflexivity|]. intros [H _]. discriminate. }
  split; [|split].
  - destruct Hcases as [[H Hok]|[[x H] Hn]]; [tauto|].
    split; [rewrite H; discriminate | tauto].
  - intros Hn. destruct Hcases as [[_ Hok]|[[x H] _]]; [contradiction|].
    split; [eauto|].
    unfold main, kernel_assertion, py_assert.
    destruct ((is_bfloat16 _ && _) || _).
    + unfold ret. unfold bind at 1. rewrite H. cbn. eauto.
    + cbn. eauto.
  - intros Hok Hk. destruct Hcases as [[H _]|[_ Hn]]; [|contradiction].
    split; [exact (main_run c e Hk H)|].
    rewrite (main_run c e Hk H), trace_bind.
    destruct (setup_run c e) as (t & s & E & _ & _ & Hhd).
    rewrite E. cbn [trace result fst snd].
    destruct t; [discriminate | exact Hhd].
Qed.

End DriverFacts.

Lemma train_step_suppresses_sync_witness :
  let t := trace (@train_step toy_torch (toy_pgm 1 1 1 2 0 2) toy_model
                    (toy_loader 3) true) in
  grad_sync_assignments t = [(0, false); (1, false); (2, true)]
  /\ backward_calls t = [(0, Some false); (1, Some false); (2, Some true)].
Proof.
  pose proof (@train_step_suppresses_sync toy_torch (toy_pgm 1 1 1 2 0 2)
                toy_model (toy_loader 3) true eq_refl) as H.
  split; [exact (proj1 H) | exact (proj1 (proj2 H))].
Defined.

Lemma train_step_zero_grad_acc_witness :
  @train_step toy_torch (toy_pgm 1 1 1 2 0 2) toy_model (toy_loader 0) true
  = ([], Ok (@Build_StepVars toy_torch 0%Q toy_model (toy_loader 0))).
Proof.
  exact (@train_step_zero_grad_acc toy_torch (toy_pgm 1 1 1 2 0 2)
           toy_model (toy_loader 0) true eq_refl).
Defined.

Lemma iteration_order_witness :
  exists before steps loss rest,
    trace (@loop_body toy_torch toy_runtime toy_config toy_environ
             (toy_pgm 1 1 1 2 0 2) true 24 (toy_vars 0 0 true))
    = EvZeroGrad :: steps ++ EvAllReduceLoss loss :: EvOptimizerStep :: rest
    /\ steps = before ++ [EvBackward 2 (Some true)].
Proof.
  destruct (@iteration_order toy_torch toy_runtime toy_config toy_environ
              (toy_pgm 1 1 1 2 0 2) true 24 (toy_vars 0 0 true))
    as (steps & loss & rest & H1 & _ & _ & _ & H5).
  assert (Hpp : pp_world_size (toy_pgm 1 1 1 2 0 2) <= 1) by (cbn; lia).
  assert (Hcp : cp_dp_world_size (toy_pgm 1 1 1 2 0 2) > 1) by reflexivity.
  assert (Hn : 0 < grad_acc (lv_loader (toy_vars 0 0 true))) by reflexivity.
  destruct (H5 Hpp Hcp Hn) as [before Hb].
  exists before, steps, loss, rest. split; assumption.
Defined.

Lemma step_log_on_reporting_rank_only_witness :
  filter is_emitted_step_log
    (trace (@loop_body toy_torch toy_runtime toy_config toy_environ
              (toy_pgm 1 1 1 2 0 2) true 24 (toy_vars 0 0 true)))
  = [EvStepLog true
       (@Build_StepReport toy_torch 1 (81 # 27)%Q 24 24)]
  /\ forall b r,
       ~ In (EvStepLog b r)
           (trace (@loop_body toy_torch toy_runtime toy_config toy_environ
                     (toy_pgm 1 1 1 2 1 2) true 24 (toy_vars 0 0 true))).
Proof.
  split.
  - apply (@step_log_on_reporting_rank_only toy_torch toy_runtime toy_config
             toy_environ (toy_pgm 1 1 1 2 0 2) true 24 (toy_vars 0 0 true)).
    repeat split; reflexivity.
  - apply (@step_log_on_reporting_rank_only toy_torch toy_runtime toy_config
             toy_environ (toy_pgm 1 1 1 2 1 2) true 24 (toy_vars 0 0 true)).
    intros (_ & Hdp & _). cbn in Hdp. discriminate.
Defined.

Lemma checkpoint_schedule_witness :
  (exists s tok path,
     In (EvSaveCheckpoint s tok path)
        (trace (@loop_body toy_torch toy_runtime toy_config toy_environ
                  (toy_pgm 1 1 1 2 0 2) true 24 (toy_vars 1 24 true))))
  /\ count is_load
       (trace (@main toy_torch toy_runtime toy_config_resume toy_environ))
     = 1%nat.
Proof.
  destruct (@checkpoint_schedule toy_torch toy_runtime toy_config toy_environ)
    as [Hsave _].
  destruct (@checkpoint_schedule toy_torch toy_runtime toy_config_resume
              toy_environ) as (_ & _ & Hload).
  split.
  - assert (Hs : 0 <= step (toy_vars 1 24 true)) by (cbn; lia).
    apply (Hsave (toy_pgm 1 1 1 2 0 2) true 24 (toy_vars 1 24 true) Hs).
    split; [reflexivity | exists 1; reflexivity].
  - exact (Hload eq_refl eq_refl).
Defined.

Lemma reset_hook_witness :
  exists before after,
    trace (@loop_body toy_torch toy_runtime toy_config toy_environ
             (toy_pgm 1 1 1 2 0 2) true 24 (toy_vars 0 0 true))
    = before ++ EvOptimizerStep :: EvReset :: after
    /\ count is_optimizer_step before = 0%nat
    /\ count is_optimizer_step after = 0%nat.
Proof.
  destruct (@reset_hook toy_torch toy_runtime toy_config toy_environ
              (toy_pgm 1 1 1 2 0 2) true 24 (toy_vars 0 0 true))
    as (_ & H & _).
  exact (H eq_refl).
Defined.

Lemma startup_preconditions_witness :
  (@main toy_torch toy_runtime toy_config toy_environ
   = bind (@setup toy_torch toy_runtime toy_config toy_environ)
          (@train toy_torch toy_runtime toy_config toy_environ)
   /\ hd_error (trace (@main toy_torch toy_runtime toy_config toy_environ))
      = Some (EvInitProcessGroup 0 2))
  /\ exists x,
       @main toy_torch toy_runtime toy_config_cp3 toy_environ = ([], Raise x).
Proof.
  split.
  - apply (@startup_preconditions toy_torch toy_runtime toy_config toy_environ).
    + split; reflexivity.
    + reflexivity.
  - apply (@startup_preconditions toy_torch toy_runtime toy_config_cp3
             toy_environ).
    intros [H _]. discriminate.
Defined.

(** * The pipeline scheduler: the two policies agree *)

Section PipelineFacts.

Context {T : Torch} {SM : StageModel}.

Lemma obind_ext {A B} (o : option A) (f g : A -> option B) :
  (forall a, f a = g a) -> obind o f = obind o g.
Proof. intros H. destruct o; [apply H | reflexivity]. Qed.

Lemma obind_assoc {A B C} (o : option A) (f : A -> option B)
    (g : B -> option C) :
  obind (obind o f) g = obind o (fun a => obind (f a) g).
Proof. destruct o; reflexivity. Qed.

Lemma run_stage_app sg l1 l2 : forall st,
  run_stage sg (l1 ++ l2) st = obind (run_stage sg l1 st) (run_stage sg l2).
Proof.
  induction l1 as [|o l1 IH]; intros st; [reflexivity|].
  cbn [app run_stage]. rewrite obind_assoc. apply obind_ext. exact IH.
Qed.

Lemma lookup_app_other j i a l :
  j <> i -> lookup j (l ++ [(i, a)]) = lookup j l.
Proof.
  intros H. induction l as [|[k b] l IH]; cbn.
  - now apply Nat.eqb_neq in H as ->.
  - destruct (Nat.eqb j k); [reflexivity | exact IH].
Qed.

Lemma discard_app_other j i a l :
  j <> i -> discard j (l ++ [(i, a)]) = discard j l ++ [(i, a)].
Proof.
  intros H. induction l as [|[k b] l IH]; cbn.
  - now apply Nat.eqb_neq in H as ->.
  - destruct (Nat.eqb j k); [reflexivity|]. now rewrite IH.
Qed.

(** A backward pass and the forward pass of another micro-batch can be made
    in either order, with the same outcome. *)
Lemma exec_commute sg i j st :
  i <> j ->
  obind (exec sg (Bwd j) st) (exec sg (Fwd i))
  = obind (exec sg (Fwd i) st) (exec sg (Bwd j)).
Proof.
  intros Hij. unfold exec.
  destruct (recv (is_first_stage sg) (st_fwd_in st)) as [[input fin]|] eqn:Hf;
    cbn [obind st_pending st_bwd_in st_grad st_completed st_fwd_in st_fwd_out
         st_bwd_out st_loss].
  - rewrite lookup_app_other by congruence.
    destruct (lookup j (st_pending st)) as [a|] eqn:Hl; [|reflexivity].
    destruct (recv (is_last_stage sg) (st_bwd_in st)) as [[g bin]|];
      [|reflexivity].
    destruct (stage_backward (stage_weights sg) (stage_batch sg j) a g
                (st_grad st)) as [grad' gx].
    cbn [obind st_pending st_bwd_in st_grad st_completed st_fwd_in st_fwd_out
         st_bwd_out st_loss].
    rewrite Hf. rewrite discard_app_other by congruence. reflexivity.
  - destruct (lookup j (st_pending st)) as [a|]; [|reflexivity].
    destruct (recv (is_last_stage sg) (st_bwd_in st)) as [[g bin]|];
      [|reflexivity].
    destruct (stage_backward (stage_weights sg) (stage_batch sg j) a g
                (st_grad st)) as [grad' gx].
    cbn [obind st_fwd_in]. now rewrite Hf.
Qed.

Lemma bwd_past_forwards sg j fs tail : forall st,
  ~ In j fs ->
  run_stage sg (Bwd j :: map Fwd fs ++ tail) st
  = run_stage sg (map Fwd fs ++ Bwd j :: tail) st.
Proof.
  induction fs as [|i fs IH]; intros st Hj; [reflexivity|].
  assert (Hij : i <> j) by (intros ->; apply Hj; now left).
  assert (Hfs : ~ In j fs) by (intros H; apply Hj; now right).
  cbn [map app run_stage].
  rewrite <- obind_assoc, (exec_commute sg st Hij), obind_assoc.
  apply obind_ext. intros st'. exact (IH st' Hfs).
Qed.

Lemma fwd_indices_app l1 l2 :
  fwd_indices (l1 ++ l2) = fwd_indices l1 ++ fwd_indices l2.
Proof. apply flat_map_app. Qed.

Lemma bwd_indices_app l1 l2 :
  bwd_indices (l1 ++ l2) = bwd_indices l1 ++ bwd_indices l2.
Proof. apply flat_map_app. Qed.

Lemma fwd_indices_fwd l : fwd_indices (map Fwd l) = l.
Proof. unfold fwd_indices. induction l; cbn in *; congruence. Qed.

Lemma fwd_indices_bwd l : fwd_indices (map Bwd l) = [].
Proof. unfold fwd_indices. induction l; cbn in *; congruence. Qed.

Lemma bwd_indices_fwd l : bwd_indices (map Fwd l) = [].
Proof. unfold bwd_indices. induction l; cbn in *; congruence. Qed.

Lemma bwd_indices_bwd l : bwd_indices (map Bwd l) = l.
Proof. unfold bwd_indices. induction l; cbn in *; congruence. Qed.

Lemma filter_is_fwd sched : filter is_fwd sched = map Fwd (fwd_indices sched).
Proof.
  induction sched as [|[i|i] l IH]; cbn; [reflexivity | now f_equal | exact IH].
Qed.

(** A schedule in which no backward pass comes before the forward pass of its
    micro-batch does what its forward passes followed by its backward passes
    do. *)
Lemma forward_first_normal sg sched :
  forward_first sched ->
  forall st,
    run_stage sg sched st
    = run_stage sg (map Fwd (fwd_indices sched) ++ map Bwd (bwd_indices sched))
        st.
Proof.
  induction sched as [|[i|j] l IH]; intros Hff st; [reflexivity| |].
  - cbn [forward_first] in Hff. cbn [fwd_indices bwd_indices flat_map app map
      run_stage]. apply obind_ext. exact (IH Hff).
  - cbn [forward_first] in Hff. destruct Hff as [Hj Hff].
    change (fwd_indices (Bwd j :: l)) with (fwd_indices l).
    change (bwd_indices (Bwd j :: l)) with (j :: bwd_indices l).
    cbn [map]. rewrite <- bwd_past_forwards by exact Hj.
    cbn [run_stage]. apply obind_ext. exact (IH Hff).
Qed.

(** ** The two schedules *)

Lemma map_add_seq w a m : map (fun k => (w + k)%nat) (seq a m) = seq (w + a) m.
Proof.
  revert a. induction m as [|m IH]; intros a; [reflexivity|].
  cbn [seq map]. rewrite IH. f_equal. f_equal. lia.
Qed.

Lemma fwd_indices_steady w l :
  fwd_indices (flat_map (fun k => [Fwd (w + k); Bwd k]) l)
  = map (fun k => (w + k)%nat) l.
Proof.
  unfold fwd_indices. induction l as [|k l IH]; [reflexivity|].
  cbn in *. now rewrite IH.
Qed.

Lemma bwd_indices_steady w l :
  bwd_indices (flat_map (fun k => [Fwd (w + k); Bwd k]) l) = l.
Proof.
  unfold bwd_indices. induction l as [|k l IH]; [reflexivity|].
  cbn in *. now rewrite IH.
Qed.

Lemma num_warmup_le p r n : (num_warmup p r n <= n)%nat.
Proof. unfold num_warmup. lia. Qed.

Lemma one_f_one_b_fwd p r n : fwd_indices (one_f_one_b p r n) = seq 0 n.
Proof.
  unfold one_f_one_b. pose proof (num_warmup_le p r n) as Hw.
  set (w := num_warmup p r n) in *.
  rewrite !fwd_indices_app, fwd_indices_fwd, fwd_indices_bwd,
    fwd_indices_steady, map_add_seq, app_nil_r, Nat.add_0_r.
  transitivity (seq 0 (w + (n - w)));
    [rewrite seq_app; reflexivity | f_equal; lia].
Qed.

Lemma one_f_one_b_bwd p r n : bwd_indices (one_f_one_b p r n) = seq 0 n.
Proof.
  unfold one_f_one_b. pose proof (num_warmup_le p r n) as Hw.
  set (w := num_warmup p r n) in *.
  rewrite !bwd_indices_app, bwd_indices_fwd, bwd_indices_bwd,
    bwd_indices_steady. cbn [app].
  transitivity (seq 0 ((n - w) + w));
    [rewrite seq_app; reflexivity | f_equal; lia].
Qed.

Lemma afab_fwd n : fwd_indices (afab n) = seq 0 n.
Proof.
  unfold afab. now rewrite fwd_indices_app, fwd_indices_fwd, fwd_indices_bwd,
    app_nil_r.
Qed.

Lemma forward_first_fwd_app l sched :
  forward_first sched -> forward_first (map Fwd l ++ sched).
Proof. intros H. induction l; [exact H | exact IHl]. Qed.

Lemma forward_first_bwd l : forward_first (map Bwd l).
Proof.
  induction l as [|j l IH]; [exact I|]. cbn [map forward_first].
  rewrite fwd_indices_bwd. auto.
Qed.

Lemma forward_first_steady w cool m : forall a,
  forward_first
    (flat_map (fun k => [Fwd (w + k); Bwd k]) (seq a m) ++ map Bwd cool).
Proof.
  induction m as [|m IH]; intros a; [apply forward_first_bwd|].
  cbn [seq flat_map app forward_first]. split; [|apply IH].
  rewrite fwd_indices_app, fwd_indices_steady, fwd_indices_bwd, app_nil_r.
  rewrite in_map_iff. intros [k [Hk Hin]]. apply in_seq in Hin. lia.
Qed.

Lemma one_f_one_b_forward_first p r n : forward_first (one_f_one_b p r n).
Proof.
  unfold one_f_one_b. apply forward_first_fwd_app, forward_first_steady.
Qed.

(** On any stage and from any state, the one-forward-one-backward schedule
    does what the all-forward-all-backward schedule does. *)
Lemma one_f_one_b_as_afab sg p r n st :
  run_stage sg (one_f_one_b p r n) st = run_stage sg (afab n) st.
Proof.
  rewrite forward_first_normal by apply one_f_one_b_forward_first.
  now rewrite one_f_one_b_fwd, one_f_one_b_bwd.
Qed.

Lemma schedule_forward_passes pol p r n :
  filter is_fwd (schedule pol p r n) = map Fwd (seq 0 n).
Proof.
  rewrite filter_is_fwd. destruct pol; cbn [schedule].
  - now rewrite afab_fwd.
  - now rewrite one_f_one_b_fwd.
Qed.

Lemma forward_streams_policy pl stages : forall r fwd_in,
  forward_streams OneFOneB pl r stages fwd_in
  = forward_streams AFAB pl r stages fwd_in.
Proof.
  induction stages as [|[w g0] stages IH]; intros r fwd_in; [reflexivity|].
  cbn [forward_streams]. rewrite !schedule_forward_passes.
  destruct (run_stage _ _ _) as [st|]; [|reflexivity]. now rewrite IH.
Qed.

Lemma run_stages_policy pl stages : forall r fwd_ins,
  run_stages OneFOneB pl r stages fwd_ins
  = run_stages AFAB pl r stages fwd_ins.
Proof.
  induction stages as [|[w g0] stages IH]; intros r fwd_ins; [reflexivity|].
  destruct fwd_ins as [|fwd_in fwd_ins]; [reflexivity|].
  cbn [run_stages schedule]. rewrite IH.
  destruct (run_stages AFAB pl (S r) stages fwd_ins) as [[bwd_in finals]|];
    [|reflexivity].
  now rewrite one_f_one_b_as_afab.
Qed.

(** ** Every stage completes its schedule *)

Lemma run_forwards sg k : forall f st,
  is_first_stage sg = true \/ (k <= List.length (st_fwd_in st))%nat ->
  exists st',
    run_stage sg (map Fwd (seq f k)) st = Some st'
    /\ map fst (st_pending st') = map fst (st_pending st) ++ seq f k
    /\ st_bwd_in st' = st_bwd_in st
    /\ st_bwd_out st' = st_bwd_out st
    /\ st_completed st' = st_completed st
    /\ List.length (st_fwd_out st')
       = (List.length (st_fwd_out st)
          + (if is_last_stage sg then 0 else k))%nat.
Proof.
  induction k as [|k IH]; intros f st Hin.
  - exists st. cbn. rewrite app_nil_r.
    repeat split; destruct (is_last_stage sg); lia.
  - cbn [seq map run_stage]. unfold exec, recv.
    destruct (is_first_stage sg) eqn:Hfirst.
    + cbn [obind].
      match goal with |- exists st', run_stage _ _ ?s = _ /\ _ =>
        destruct (IH (S f) s) as (st' & E & Hp & Hbi & Hbo & Hc & Hfo);
        [left; reflexivity|] end.
      exists st'. cbn [st_pending st_bwd_in st_bwd_out st_fwd_out st_completed]
        in *.
      rewrite E, Hp, map_app, <- app_assoc. repeat split; auto.
      rewrite Hfo. unfold send. destruct (is_last_stage sg);
        rewrite ?length_app; cbn; lia.
    + destruct Hin as [Hin|Hin]; [discriminate|].
      destruct (st_fwd_in st) as [|x rest] eqn:Hs; [cbn in Hin; lia|].
      cbn [obind].
      match goal with |- exists st', run_stage _ _ ?s = _ /\ _ =>
        destruct (IH (S f) s) as (st' & E & Hp & Hbi & Hbo & Hc & Hfo);
        [right; cbn in *; lia|] end.
      exists st'. cbn [st_pending st_bwd_in st_bwd_out st_fwd_out st_completed]
        in *.
      rewrite E, Hp, map_app, <- app_assoc. repeat split; auto.
      rewrite Hfo. unfold send. destruct (is_last_stage sg);
        rewrite ?length_app; cbn; lia.
Qed.

Lemma run_backwards sg k : forall b st,
  map fst (st_pending st) = seq b k ->
  is_last_stage sg = true \/ (k <= List.length (st_bwd_in st))%nat ->
  exists st',
    run_stage sg (map Bwd (seq b k)) st = Some st'
    /\ st_completed st' = (st_completed st + k)%nat
    /\ List.length (st_bwd_out st')
       = (List.length (st_bwd_out st)
          + (if is_first_stage sg then 0 else k))%nat.
Proof.
  induction k as [|k IH]; intros b st Hp Hin.
  - exists st. cbn. repeat split; destruct (is_first_stage sg); lia.
  - cbn [seq map run_stage]. unfold exec, recv.
    destruct (st_pending st) as [|[j a] pending] eqn:Hpend; [discriminate|].
    cbn [map fst seq] in Hp. injection Hp as -> Hp.
    cbn [lookup discard]. rewrite Nat.eqb_refl.
    assert (Hrecv : exists g bin,
              (if is_last_stage sg then Some (None, st_bwd_in st)
               else match st_bwd_in st with
                    | x :: rest => Some (Some x, rest)
                    | [] => None
                    end) = Some (g, bin)
              /\ (is_last_stage sg = true \/ (k <= List.length bin)%nat)).
    { destruct (is_last_stage sg); [eexists _, _; split; [reflexivity|now left]|].
      destruct Hin as [Hin|Hin]; [discriminate|].
      destruct (st_bwd_in st) as [|x rest]; [cbn in Hin; lia|].
      eexists _, _. split; [reflexivity|]. right. cbn in Hin. lia. }
    destruct Hrecv as (g & bin & -> & Hbin).
    destruct (stage_backward (stage_weights sg) (stage_batch sg b) a g
                (st_grad st)) as [grad' gx].
    cbn [obind].
    match goal with |- exists st', run_stage _ _ ?s = _ /\ _ =>
      destruct (IH (S b) s) as (st' & E & Hc & Hbo);
      [exact Hp | exact Hbin |] end.
    exists st'. cbn [st_completed st_bwd_out] in *.
    rewrite E, Hc, Hbo. repeat split; [lia|].
    unfold send. destruct (is_first_stage sg); rewrite ?length_app; cbn; lia.
Qed.

Lemma forwards_complete sg n g0 fwd_in :
  is_first_stage sg = true \/ (n <= List.length fwd_in)%nat ->
  exists st,
    run_stage sg (map Fwd (seq 0 n)) (start g0 fwd_in []) = Some st
    /\ List.length (st_fwd_out st) = if is_last_stage sg then 0%nat else n.
Proof.
  intros H.
  destruct (@run_forwards sg n 0%nat (start g0 fwd_in []) H)
    as (st & E & _ & _ & _ & _ & Hfo).
  exists st. split; [exact E|]. rewrite Hfo. reflexivity.
Qed.

Lemma afab_completes sg n g0 fwd_in bwd_in :
  is_first_stage sg = true \/ (n <= List.length fwd_in)%nat ->
  is_last_stage sg = true \/ (n <= List.length bwd_in)%nat ->
  exists st,
    run_stage sg (afab n) (start g0 fwd_in bwd_in) = Some st
    /\ st_completed st = n
    /\ List.length (st_bwd_out st) = if is_first_stage sg then 0%nat else n.
Proof.
  intros Hf Hb. unfold afab. rewrite run_stage_app.
  destruct (@run_forwards sg n 0%nat (start g0 fwd_in bwd_in) Hf)
    as (st1 & E1 & Hp & Hbi & Hbo & Hc & _).
  rewrite E1. cbn [obind].
  cbn [start st_pending st_bwd_in st_bwd_out st_completed map app] in *.
  assert (Hb1 : is_last_stage sg = true \/ (n <= List.length (st_bwd_in st1))%nat)
    by (rewrite Hbi; exact Hb).
  destruct (@run_backwards sg n 0%nat st1 Hp Hb1) as (st2 & E2 & Hc2 & Hbo2).
  exists st2. rewrite E2, Hc2, Hbo2, Hc, Hbo. repeat split.
Qed.

Lemma forward_streams_complete pl stages : forall r fwd_in,
  (r + List.length stages = List.length (pl_stages pl))%nat ->
  stages = [] \/ r = 0%nat \/ (pl_grad_acc pl <= List.length fwd_in)%nat ->
  exists fwd_ins,
    forward_streams AFAB pl r stages fwd_in = Some fwd_ins
    /\ List.length fwd_ins = List.length stages
    /\ streams_complete (pl_grad_acc pl) r fwd_ins.
Proof.
  induction stages as [|[w g0] stages IH]; intros r fwd_in Hr Hin.
  - exists []. repeat split.
  - destruct Hin as [Hin|Hin]; [discriminate|].
    cbn [forward_streams]. rewrite schedule_forward_passes.
    assert (Hfirst : is_first_stage (stage_of pl r w) = true
                     \/ (pl_grad_acc pl <= List.length fwd_in)%nat).
    { destruct Hin as [->|Hin]; [left; reflexivity | right; exact Hin]. }
    destruct (@forwards_complete (stage_of pl r w) (pl_grad_acc pl) g0 fwd_in
                Hfirst) as (st & E & Hfo).
    rewrite E.
    destruct (IH (S r) (st_fwd_out st)) as (rest & E' & Hlen & Hok).
    + cbn [List.length] in Hr. lia.
    + destruct stages as [|x stages]; [now left|]. right. right.
      rewrite Hfo. cbn [stage_of is_last_stage].
      cbn [List.length] in Hr.
      replace (Nat.eqb (S r) (List.length (pl_stages pl))) with false
        by (symmetry; apply Nat.eqb_neq; lia).
      lia.
    + rewrite E'. exists (fwd_in :: rest). cbn [List.length streams_complete].
      repeat split; auto.
Qed.

Lemma run_stages_complete pl stages : forall r fwd_ins,
  (r + List.length stages = List.length (pl_stages pl))%nat ->
  List.length fwd_ins = List.length stages ->
  streams_complete (pl_grad_acc pl) r fwd_ins ->
  exists bwd_out finals,
    run_stages AFAB pl r stages fwd_ins = Some (bwd_out, finals)
    /\ List.length finals = List.length stages
    /\ Forall (fun st => st_completed st = pl_grad_acc pl) finals
    /\ (stages = [] \/ r = 0%nat
        \/ (pl_grad_acc pl <= List.length bwd_out)%nat).
Proof.
  induction stages as [|[w g0] stages IH]; intros r fwd_ins Hr Hlen Hok.
  - destruct fwd_ins; [|discriminate]. exists [], []. repeat split; auto.
  - destruct fwd_ins as [|fwd_in fwd_ins]; [discriminate|].
    cbn [List.length] in Hr, Hlen. cbn [streams_complete] in Hok.
    destruct Hok as [Hin Hok].
    destruct (IH (S r) fwd_ins) as (bwd_in & finals & E & Hfl & Hall & Hb);
      [lia | lia | exact Hok |].
    cbn [run_stages schedule]. rewrite E.
    assert (Hfirst : is_first_stage (stage_of pl r w) = true
                     \/ (pl_grad_acc pl <= List.length fwd_in)%nat).
    { destruct Hin as [->|Hin]; [left; reflexivity | right; exact Hin]. }
    assert (Hlast : is_last_stage (stage_of pl r w) = true
                    \/ (pl_grad_acc pl <= List.length bwd_in)%nat).
    { destruct Hb as [->|[Hb|Hb]]; [|discriminate|right; exact Hb].
      left. cbn [stage_of is_last_stage]. apply Nat.eqb_eq.
      cbn [List.length] in Hr. lia. }
    destruct (@afab_completes (stage_of pl r w) (pl_grad_acc pl) g0 fwd_in
                bwd_in Hfirst Hlast) as (st & E' & Hc & Hbo).
    rewrite E'. exists (st_bwd_out st), (st :: finals).
    cbn [List.length]. repeat split; auto.
    right. rewrite Hbo. cbn [stage_of is_first_stage].
    destruct r; [now left | right; cbn; lia].
Qed.

(** ** The loss of the last stage *)

Lemma run_bwds_keep_loss sg l : forall st st',
  run_stage sg (map Bwd l) st = Some st' -> st_loss st' = st_loss st.
Proof.
  induction l as [|i l IH]; intros st st' H.
  - injection H as <-. reflexivity.
  - cbn [map run_stage] in H. unfold exec in H.
    destruct (lookup i (st_pending st)) as [a|]; [|discriminate].
    destruct (recv (is_last_stage sg) (st_bwd_in st)) as [[g bin]|];
      [|discriminate].
    destruct (stage_backward (stage_weights sg) (stage_batch sg i) a g
                (st_grad st)) as [grad' gx].
    cbn [obind] in H. apply IH in H. exact H.
Qed.

Lemma run_fwds_loss sg k : forall f st st',
  is_last_stage sg = true ->
  run_stage sg (map Fwd (seq f k)) st = Some st' ->
  st_loss st'
  = fold_left float_add
      (map (stage_micro_loss sg)
           (combine (seq f k) (received sg k (st_fwd_in st))))
      (st_loss st).
Proof.
  induction k as [|k IH]; intros f st st' Hlast H.
  - injection H as <-. unfold received. destruct (is_first_stage sg); reflexivity.
  - cbn [seq map run_stage] in H. unfold exec, recv in H.
    unfold received in *. rewrite Hlast in H.
    destruct (is_first_stage sg) eqn:Hfirst.
    + cbn [obind] in H. apply (IH (S f) _ _ Hlast) in H.
      cbn [st_loss st_fwd_in] in H. rewrite H. reflexivity.
    + destruct (st_fwd_in st) as [|x rest]; [discriminate|].
      cbn [obind] in H. apply (IH (S f) _ _ Hlast) in H.
      cbn [st_loss st_fwd_in] in H. rewrite H. reflexivity.
Qed.

(** On the last stage, under either policy, the reported loss is the sum over
    the micro-batches of the micro-batch loss divided by [grad_acc], added up
    in micro-batch order from [0.0]: the division of [train_step]. *)
Lemma last_stage_loss pol sg p r g0 fwd_in bwd_in st :
  is_last_stage sg = true ->
  run_stage sg (schedule pol p r (stage_grad_acc sg))
    (start g0 fwd_in bwd_in) = Some st ->
  st_loss st
  = fold_left float_add
      (map (stage_micro_loss sg)
           (combine (seq 0 (stage_grad_acc sg))
                    (received sg (stage_grad_acc sg) fwd_in)))
      float_zero.
Proof.
  intros Hlast.
  replace (run_stage sg (schedule pol p r (stage_grad_acc sg))
             (start g0 fwd_in bwd_in))
    with (run_stage sg (afab (stage_grad_acc sg)) (start g0 fwd_in bwd_in))
    by (destruct pol; [reflexivity | symmetry; apply one_f_one_b_as_afab]).
  unfold afab. rewrite run_stage_app. intros H.
  destruct (run_stage sg (map Fwd (seq 0 (stage_grad_acc sg)))
              (start g0 fwd_in bwd_in)) as [st1|] eqn:E1; [|discriminate].
  cbn [obind] in H. apply run_bwds_keep_loss in H. rewrite H.
  exact (@run_fwds_loss sg _ _ _ _ Hlast E1).
Qed.

(** ** The streams are the messages exchanged *)

Lemma run_bwds_keep_fwd_out sg l : forall st st',
  run_stage sg (map Bwd l) st = Some st' -> st_fwd_out st' = st_fwd_out st.
Proof.
  induction l as [|i l IH]; intros st st' H.
  - injection H as <-. reflexivity.
  - cbn [map run_stage] in H. unfold exec in H.
    destruct (lookup i (st_pending st)) as [a|]; [|discriminate].
    destruct (recv (is_last_stage sg) (st_bwd_in st)) as [[g bin]|];
      [|discriminate].
    destruct (stage_backward (stage_weights sg) (stage_batch sg i) a g
                (st_grad st)) as [grad' gx].
    cbn [obind] in H. apply IH in H. exact H.
Qed.

Lemma run_fwds_fwd_out sg l : forall st1 st2,
  st_fwd_in st1 = st_fwd_in st2 ->
  st_fwd_out st1 = st_fwd_out st2 ->
  match run_stage sg (map Fwd l) st1, run_stage sg (map Fwd l) st2 with
  | Some a, Some b => st_fwd_out a = st_fwd_out b
  | None, None => True
  | _, _ => False
  end.
Proof.
  induction l as [|i l IH]; intros st1 st2 Hin Hout; [exact Hout|].
  cbn [map run_stage]. unfold exec. rewrite Hin.
  destruct (recv (is_first_stage sg) (st_fwd_in st2)) as [[input fin]|];
    [|exact I].
  cbn [obind]. apply IH; cbn [st_fwd_in st_fwd_out]; congruence.
Qed.

Lemma forwards_sent_by_schedule pol sg p r n g0 fwd_in bwd_in st st0 :
  run_stage sg (schedule pol p r n) (start g0 fwd_in bwd_in) = Some st ->
  run_stage sg (filter is_fwd (schedule pol p r n)) (start g0 fwd_in [])
  = Some st0 ->
  st_fwd_out st = st_fwd_out st0.
Proof.
  rewrite schedule_forward_passes.
  replace (run_stage sg (schedule pol p r n) (start g0 fwd_in bwd_in))
    with (run_stage sg (afab n) (start g0 fwd_in bwd_in))
    by (destruct pol; [reflexivity | symmetry; apply one_f_one_b_as_afab]).
  unfold afab. rewrite run_stage_app. intros H H0.
  pose proof (@run_fwds_fwd_out sg (seq 0 n) (start g0 fwd_in bwd_in)
                (start g0 fwd_in []) eq_refl eq_refl) as Hf.
  rewrite H0 in Hf.
  destruct (run_stage sg (map Fwd (seq 0 n)) (start g0 fwd_in bwd_in))
    as [st1|]; [|destruct Hf].
  cbn [obind] in H. apply run_bwds_keep_fwd_out in H. congruence.
Qed.

(** In a pipelined step, the activations a stage runs on are those the stage
    before it has sent by the end of its own schedule. *)
Lemma pipeline_activations_delivered pol pl stages :
  forall r fwd_in fwd_ins bwd_out finals,
    forward_streams pol pl r stages fwd_in = Some fwd_ins ->
    run_stages pol pl r stages fwd_ins = Some (bwd_out, finals) ->
    activations_delivered fwd_ins finals.
Proof.
  induction stages as [|[w g0] stages IH];
    intros r fwd_in fwd_ins bwd_out finals Hf Hr.
  - injection Hf as <-. exact I.
  - cbn [forward_streams] in Hf.
    destruct (run_stage (stage_of pl r w)
                (filter is_fwd _) (start g0 fwd_in [])) as [st0|] eqn:E0;
      [|discriminate].
    destruct (forward_streams pol pl (S r) stages (st_fwd_out st0))
      as [rest|] eqn:Erest; [|discriminate].
    injection Hf as <-. cbn [run_stages] in Hr.
    destruct (run_stages pol pl (S r) stages rest)
      as [[bwd_in finals']|] eqn:Er; [|discriminate].
    destruct (run_stage (stage_of pl r w) _ (start g0 fwd_in bwd_in))
      as [st|] eqn:E; [|discriminate].
    injection Hr as <- <-.
    pose proof (IH _ _ _ _ _ Erest Er) as Hrec.
    destruct stages as [|[w' g0'] stages'].
    + injection Erest as <-. exact I.
    + cbn [forward_streams] in Erest.
      destruct (run_stage (stage_of pl (S r) w') _ _); [|discriminate].
      destruct (forward_streams pol pl (S (S r)) stages' _); [|discriminate].
      injection Erest as <-. cbn [activations_delivered]. split.
      * exact (forwards_sent_by_schedule _ _ _ _ _ _ _ _ E E0).
      * exact Hrec.
Qed.

(** C3. For the same weights and the same micro-batches, every stage can make
    all the passes of its schedule under both scheduling policies, and the
    one-forward-one-backward policy leaves on every stage the same
    accumulated gradients and the same loss as the all-forward-all-backward
    policy; whatever the optimizer, the parameter update is the same. *)
Theorem pipeline_policies_agree (pl : Pipeline) :
  (exists results,
     pipeline_step AFAB pl = Some results
     /\ pipeline_step OneFOneB pl = Some results
     /\ List.length results = List.length (pl_stages pl))
  /\ forall update,
       option_map (updated_weights update pl) (pipeline_step OneFOneB pl)
       = option_map (updated_weights update pl) (pipeline_step AFAB pl).
Proof.
  assert (Heq : pipeline_step OneFOneB pl = pipeline_step AFAB pl).
  { unfold pipeline_step. rewrite forward_streams_policy.
    destruct (forward_streams AFAB pl 0 (pl_stages pl) []); [|reflexivity].
    now rewrite run_stages_policy. }
  split; [|intros update; now rewrite Heq].
  rewrite Heq. unfold pipeline_step.
  destruct (@forward_streams_complete pl (pl_stages pl) 0%nat [])
    as (fwd_ins & E & Hlen & Hok); [reflexivity | right; now left |].
  rewrite E.
  destruct (@run_stages_complete pl (pl_stages pl) 0%nat fwd_ins)
    as (g & finals & E' & Hfl & _); [reflexivity | exact Hlen | exact Hok |].
  rewrite E'. eexists. repeat split. now rewrite length_map.
Qed.

End PipelineFacts.

(** * The loss reduction primitive: one value per group *)

Section LossReductionFacts.

Context {T : Torch}.

Variable float_div : pyfloat -> nat -> pyfloat.

(** ** Counting ranks by coordinate *)

Lemma count_eq_seq t a :
  List.length (filter (fun i => Nat.eqb i t) (seq 0 a))
  = if (t <? a)%nat then 1%nat else 0%nat.
Proof.
  induction a as [|a IH]; [reflexivity|].
  rewrite seq_S, filter_app, length_app, IH. cbn [filter Nat.add].
  destruct (Nat.eqb_spec a t) as [->|Hne].
  - rewrite Nat.ltb_irrefl, (proj2 (Nat.ltb_lt t (S t))) by lia. reflexivity.
  - destruct (Nat.ltb_spec t a), (Nat.ltb_spec t (S a)); cbn; lia.
Qed.

Lemma seq_block a m :
  seq 0 (a * S m) = seq 0 (a * m) ++ map (fun i => (a * m + i)%nat) (seq 0 a).
Proof.
  rewrite Nat.mul_succ_r, seq_app. f_equal.
  now rewrite map_add_seq, Nat.add_0_r.
Qed.

Lemma block_coordinates a m i :
  (i < a)%nat -> ((a * m + i) / a = m /\ (a * m + i) mod a = i)%nat.
Proof.
  intros H. split; symmetry.
  - apply Nat.div_unique with i; [exact H | reflexivity].
  - apply Nat.mod_unique with m; [exact H | reflexivity].
Qed.

Lemma count_fixed_digit a t (Q : nat -> bool) m :
  (t < a)%nat ->
  List.length
    (filter (fun r => Nat.eqb (r mod a) t && Q (r / a)%nat) (seq 0 (a * m)))
  = List.length (filter Q (seq 0 m)).
Proof.
  intros Ht. induction m as [|m IH]; [now rewrite Nat.mul_0_r|].
  rewrite seq_block, seq_S, !filter_app, !length_app, IH. f_equal.
  rewrite filter_map_swap, length_map.
  rewrite (@filter_ext_in _ _ (fun i => Nat.eqb i t && Q m)).
  - cbn [filter Nat.add]. destruct (Q m).
    + rewrite (@filter_ext _ _ (fun i => Nat.eqb i t))
        by (intros i; apply andb_true_r).
      rewrite count_eq_seq.
      now replace (t <? a)%nat with true by (symmetry; apply Nat.ltb_lt; lia).
    + rewrite (@filter_ext _ _ (fun _ => false))
        by (intros i; apply andb_false_r).
      induction (seq 0 a); [reflexivity | assumption].
  - intros i Hi. apply in_seq in Hi.
    destruct (@block_coordinates a m i) as [-> ->]; [lia | reflexivity].
Qed.

Lemma count_free_digit a (Q : nat -> bool) m :
  List.length (filter (fun r => Q (r / a)%nat) (seq 0 (a * m)))
  = (a * List.length (filter Q (seq 0 m)))%nat.
Proof.
  induction m as [|m IH]; [now rewrite Nat.mul_0_r, Nat.mul_0_r|].
  rewrite seq_block, seq_S, !filter_app, !length_app, IH, Nat.mul_add_distr_l.
  f_equal. rewrite filter_map_swap, length_map.
  rewrite (@filter_ext_in _ _ (fun _ => Q m)).
  - cbn [filter Nat.add]. destruct (Q m).
    + replace (filter (fun _ => true) (seq 0 a)) with (seq 0 a)
        by (induction (seq 0 a); [reflexivity | cbn; congruence]).
      rewrite length_seq. cbn. lia.
    + replace (filter (fun _ => false) (seq 0 a)) with (@nil nat)
        by (induction (seq 0 a); [reflexivity | assumption]).
      cbn. lia.
  - intros i Hi. apply in_seq in Hi.
    destruct (@block_coordinates a m i) as [-> _]; [lia | reflexivity].
Qed.

Lemma cp_dp_group_size tp r :
  (r < world_size tp)%nat ->
  List.length (cp_dp_group tp r) = (data_size tp * context_size tp)%nat.
Proof.
  unfold cp_dp_group, world_size, same_tensor_and_pipeline, tensor_rank,
    pipeline_rank.
  destruct tp as [a c p d]. cbn [tensor_size context_size pipeline_size
    data_size]. intros Hr.
  assert (Ha : a <> 0%nat) by (intros ->; cbn in Hr; lia).
  assert (Hc : c <> 0%nat) by (intros ->; rewrite Nat.mul_0_r in Hr; cbn in Hr; lia).
  assert (Hp : p <> 0%nat)
    by (intros ->; rewrite Nat.mul_0_r in Hr; cbn in Hr; lia).
  set (t := (r mod a)%nat). set (q := ((r / (a * c)) mod p)%nat).
  assert (Ht : (t < a)%nat) by (apply Nat.mod_upper_bound; exact Ha).
  assert (Hq : (q < p)%nat) by (apply Nat.mod_upper_bound; exact Hp).
  replace (a * c * p * d)%nat with (a * (c * (p * d)))%nat by lia.
  rewrite (@filter_ext _ _
             (fun r' => Nat.eqb (r' mod a) t
                        && (fun x => Nat.eqb ((x / c) mod p) q) (r' / a)%nat))
    by (intros r'; now rewrite Nat.Div0.div_div).
  rewrite (@count_fixed_digit a t (fun x => Nat.eqb ((x / c) mod p) q)
             (c * (p * d)) Ht).
  rewrite (@count_free_digit c (fun y => Nat.eqb (y mod p) q) (p * d)).
  rewrite (@filter_ext _ _
             (fun y => Nat.eqb (y mod p) q && (fun _ => true) (y / p)%nat))
    by (intros y; now rewrite andb_true_r).
  rewrite (@count_fixed_digit p q (fun _ => true) d Hq).
  replace (filter (fun _ => true) (seq 0 d)) with (seq 0 d)
    by (induction (seq 0 d); [reflexivity | cbn; congruence]).
  rewrite length_seq. lia.
Qed.

Lemma cp_dp_group_shared tp r r' :
  In r' (cp_dp_group tp r) -> cp_dp_group tp r' = cp_dp_group tp r.
Proof.
  unfold cp_dp_group. intros H. apply filter_In in H. destruct H as [_ H].
  unfold same_tensor_and_pipeline in *.
  apply andb_true_iff in H. destruct H as [Ht Hp].
  apply Nat.eqb_eq in Ht, Hp. apply filter_ext. intros x.
  now rewrite Ht, Hp.
Qed.

(** C5. The loss reduction gives a rank the sum of the local losses over its
    data+context group divided by the size of that group; every rank of the
    group gets the same value; the group contains the rank itself and has
    [data_size * context_size] members, whatever the four sizes. *)
Theorem loss_reduction_average tp (local : nat -> pyfloat) r :
  reduce float_div tp local r
  = float_div
      (fold_left float_add (map local (cp_dp_group tp r)) float_zero)
      (List.length (cp_dp_group tp r))
  /\ (forall r', In r' (cp_dp_group tp r) ->
                 reduce float_div tp local r' = reduce float_div tp local r)
  /\ ((r < world_size tp)%nat ->
      In r (cp_dp_group tp r)
      /\ List.length (cp_dp_group tp r)
         = (data_size tp * context_size tp)%nat).
Proof.
  split; [reflexivity|]. split.
  - intros r' H. unfold reduce. now rewrite (cp_dp_group_shared tp r r' H).
  - intros Hr. split; [|now apply cp_dp_group_size].
    unfold cp_dp_group. apply filter_In. split; [apply in_seq; lia|].
    unfold same_tensor_and_pipeline. now rewrite !Nat.eqb_refl.
Qed.

End LossReductionFacts.

Lemma loss_reduction_average_witness :
  @reduce toy_torch toy_float_div toy_topology_4d toy_local_loss 13
  = @reduce toy_torch toy_float_div toy_topology_4d toy_local_loss 5
  /\ In 5%nat (cp_dp_group toy_topology_4d 5)
  /\ List.length (cp_dp_group toy_topology_4d 5) = 6%nat.
Proof.
  destruct (@loss_reduction_average toy_torch toy_float_div toy_topology_4d
              toy_local_loss 5%nat) as (_ & Hsame & Hin).
  split.
  - apply Hsame. vm_compute. right. right. left. reflexivity.
  - apply Hin. apply Nat.ltb_lt. reflexivity.
Defined.

(** * Worked examples *)

(** The four-rank scenario: data+context groups {0,2} and {1,3}. *)
Example cp_dp_groups_of_four_ranks :
  map (fun r => (tensor_rank toy_topology r, pipeline_rank toy_topology r,
                 data_rank toy_topology r)) (seq 0 4)
  = [(0, 0, 0); (0, 1, 0); (0, 0, 1); (0, 1, 1)]%nat
  /\ cp_dp_group toy_topology 0 = [0; 2]%nat
  /\ cp_dp_group toy_topology 1 = [1; 3]%nat.
Proof. repeat split. Qed.

(** Local losses 6, 8, 14, 16, 22, 24 on the six ranks of a group: each of
    them reports 15. *)
Example reduce_on_a_group :
  map (@reduce toy_torch toy_float_div toy_topology_4d toy_local_loss)
      (cp_dp_group toy_topology_4d 5)
  = [15; 15; 15; 15; 15; 15]%Q.
Proof. vm_compute. reflexivity. Qed.

(** Three stages, first stage, four micro-batches: two forward passes of
    warm-up, two rounds of steady state, two backward passes of cool-down. *)
Example one_f_one_b_first_of_three :
  one_f_one_b 3 0 4
  = [Fwd 0; Fwd 1; Fwd 2; Bwd 0; Fwd 3; Bwd 1; Bwd 2; Bwd 3]%nat
  /\ num_warmup 3 0 4 = 2%nat
  /\ List.length (filter is_fwd (one_f_one_b 3 0 4)) = 4%nat
  /\ List.length (filter is_bwd (one_f_one_b 3 0 4)) = 4%nat.
Proof. repeat split. Qed.

(** The last stage alternates from the start. *)
Example one_f_one_b_last_of_three :
  one_f_one_b 3 2 4
  = [Fwd 0; Bwd 0; Fwd 1; Bwd 1; Fwd 2; Bwd 2; Fwd 3; Bwd 3]%nat.
Proof. reflexivity. Qed.

(** Both policies on the three-stage pipeline: the gradients of the three
    stages, and the loss on the last one. *)
Example toy_pipeline_both_policies :
  option_map (map fst)
    (@pipeline_step toy_torch toy_stage_model AFAB toy_pipeline)
  = Some [3793; 1386; 1110]%Q
  /\ @pipeline_step toy_torch toy_stage_model OneFOneB toy_pipeline
     = @pipeline_step toy_torch toy_stage_model AFAB toy_pipeline.
Proof. split; vm_compute; reflexivity. Qed.

(** The accumulation is sensitive to the order of the backward passes: a
    schedule that drains them in reverse leaves other gradients, and one that
    starts with a backward pass cannot be run. *)
Example backward_order_matters :
  option_map (@st_grad toy_torch)
    (@run_stage toy_torch toy_stage_model toy_single_stage (afab 2)
       (@start toy_torch 0%Q [] []))
  = Some 14%Q
  /\ option_map (@st_grad toy_torch)
       (@run_stage toy_torch toy_stage_model toy_single_stage
          [Fwd 0; Fwd 1; Bwd 1; Bwd 0]%nat (@start toy_torch 0%Q [] []))
     = Some 16%Q
  /\ @run_stage toy_torch toy_stage_model toy_single_stage
       [Bwd 0; Fwd 0; Fwd 1; Bwd 1]%nat (@start toy_torch 0%Q [] [])
     = None.
Proof. repeat split. Qed.

(** A run of the script on two data-parallel ranks, from a checkpoint at step
    150 to step 152: the calls of rank 0 that concern checkpoints. *)
Example resumed_run_checkpoints :
  filter (fun ev => is_load ev || is_save ev)
    (trace (@main toy_torch toy_runtime toy_config_resume toy_environ))
  = [EvLoadCheckpoint "ckpt/150"; EvSaveCheckpoint 152 1248 "ckpt/152"].
Proof. vm_compute. reflexivity. Qed.

(** Three micro-batches with cross-entropies 1, 3 and 5: the step returns
    1/3 + 3/3 + 5/3 = 3. *)
Example train_step_three_micro_batches :
  match result (@train_step toy_torch (toy_pgm 1 1 1 2 0 2) toy_model
                  (toy_loader 3) true) with
  | Ok v => Qeq (acc_loss v) 3
  | Raise _ => False
  end.
Proof. vm_compute. reflexivity. Qed.

(** * More of the driver *)

Section DriverCoverage.

Context {T : Torch} {R : Runtime}.

(** ** [train_step]: what it leaves behind *)

Lemma for_each_train_step_state r dev l : forall v,
  exists v',
    result (for_each l (train_step_body r dev) v) = Ok v'
    /\ iterator (data_loader v')
       = advance (List.length l) (iterator (data_loader v))
    /\ grad_acc (data_loader v') = grad_acc (data_loader v)
    /\ micro_batch_size (data_loader v') = micro_batch_size (data_loader v)
    /\ global_batch_size (data_loader v') = global_batch_size (data_loader v)
    /\ seq_length_per_gpu (data_loader v') = seq_length_per_gpu (data_loader v)
    /\ require_backward_grad_sync (model v')
       = fold_left (sync_flag r (grad_acc (data_loader v))) l
           (require_backward_grad_sync (model v)).
Proof.
  induction l as [|i l IH]; intros v.
  - exists v. cbn. auto 10.
  - destruct (train_step_body_run r dev i v)
      as (v1 & E1 & _ & _ & _ & Hf & Hd).
    destruct (IH v1) as (v2 & E2 & Hit & Hn & Hm & Hg & Hs & Hfl).
    exists v2. cbn [for_each]. rewrite result_bind, E1.
    cbn [result snd]. rewrite Hd in *. cbn [set_iterator grad_acc
      micro_batch_size global_batch_size seq_length_per_gpu iterator] in *.
    rewrite Hf in Hfl. cbn [List.length advance fold_left]. auto 10.
Qed.

Lemma fold_sync_flag_off n l : forall f,
  fold_left (sync_flag false n) l f = f.
Proof. induction l as [|i l IH]; intros f; [reflexivity | apply IH]. Qed.

Lemma no_assignments_when_off n f l :
  grad_sync_assignments (flat_map (micro_batch_events false n f) l) = [].
Proof.
  induction l as [|i l IH]; [reflexivity|].
  cbn [flat_map]. now rewrite grad_sync_assignments_app, IH.
Qed.

Lemma next_batches_of_step r n f l :
  filter is_next_batch (flat_map (micro_batch_events r n f) l)
  = map EvNextBatch l.
Proof.
  induction l as [|i l IH]; [reflexivity|].
  cbn [flat_map map]. rewrite filter_app, IH. unfold micro_batch_events.
  destruct r; reflexivity.
Qed.

(** X1. When neither context nor data parallelism is on
    ([cp_dp_world_size <= 1]), [train_step] never assigns
    [require_backward_grad_sync]: every backward pass runs under the flag the
    model had before the step, and the model still has it afterwards. *)
Theorem train_step_without_sync pgm m d dev :
  cp_dp_world_size pgm <= 1 ->
  let t := trace (train_step pgm m d dev) in
  grad_sync_assignments t = []
  /\ backward_calls t
     = map (fun i => (i, require_backward_grad_sync m)) (py_range (grad_acc d))
  /\ exists v,
       result (train_step pgm m d dev) = Ok v
       /\ require_backward_grad_sync (model v) = require_backward_grad_sync m.
Proof.
  intros Hw t.
  assert (Hr : (cp_dp_world_size pgm >? 1) = false)
    by (rewrite Z.gtb_ltb; apply Z.ltb_ge; lia).
  destruct (train_step_run pgm m d dev) as (v & E & _).
  subst t. split; [|split].
  - rewrite E, Hr. apply no_assignments_when_off.
  - rewrite E, Hr. apply backward_calls_of_step.
  - clear E. unfold train_step, for_range. rewrite Hr.
    destruct (for_each_train_step_state false dev (py_range (grad_acc d))
                {| acc_loss := float_zero; model := m; data_loader := d |})
      as (v' & E' & _ & _ & _ & _ & _ & Hfl).
    exists v'. split; [exact E'|]. rewrite Hfl. apply fold_sync_flag_off.
Qed.

(** X2. When context or data parallelism is on and the step has at least one
    micro-batch, [train_step] returns with [require_backward_grad_sync] set
    to [True]: gradient synchronisation is left enabled after every step. *)
Theorem train_step_leaves_sync_enabled pgm m d dev :
  cp_dp_world_size pgm > 1 ->
  0 < grad_acc d ->
  exists v,
    result (train_step pgm m d dev) = Ok v
    /\ require_backward_grad_sync (model v) = Some true.
Proof.
  intros Hw Hn.
  assert (Hr : (cp_dp_world_size pgm >? 1) = true) by (apply Z.gtb_lt; lia).
  unfold train_step, for_range. rewrite Hr.
  destruct (for_each_train_step_state true dev (py_range (grad_acc d))
              {| acc_loss := float_zero; model := m; data_loader := d |})
    as (v' & E' & _ & _ & _ & _ & _ & Hfl).
  exists v'. split; [exact E'|]. rewrite Hfl.
  rewrite (py_range_last Hn), fold_left_app. cbn [fold_left sync_flag
    model data_loader grad_acc]. now rewrite Z.eqb_refl.
Qed.

(** X3. [train_step] draws exactly [grad_acc] batches from the data loader
    (none when [grad_acc <= 0]) and leaves its iterator that many batches
    further; it changes nothing else of the data loader, and it changes
    neither the weights of the model nor whether the model has [reset]. *)
Theorem train_step_frame pgm m d dev :
  exists v,
    result (train_step pgm m d dev) = Ok v
    /\ filter is_next_batch (trace (train_step pgm m d dev))
       = map EvNextBatch (py_range (grad_acc d))
    /\ iterator (data_loader v)
       = advance (Z.to_nat (grad_acc d)) (iterator d)
    /\ grad_acc (data_loader v) = grad_acc d
    /\ micro_batch_size (data_loader v) = micro_batch_size d
    /\ global_batch_size (data_loader v) = global_batch_size d
    /\ seq_length_per_gpu (data_loader v) = seq_length_per_gpu d
    /\ weights (model v) = weights m
    /\ has_reset (model v) = has_reset m.
Proof.
  destruct (train_step_run pgm m d dev) as (v & E & _ & Hw & Hr & _).
  destruct (for_each_train_step_state (cp_dp_world_size pgm >? 1) dev
              (py_range (grad_acc d))
              {| acc_loss := float_zero; model := m; data_loader := d |})
    as (v' & E' & Hit & Hn & Hm & Hg & Hs & _).
  assert (Hv : v' = v).
  { unfold train_step, for_range in E. rewrite E in E'. cbn in E'. congruence. }
  subst v'. exists v. rewrite E. cbn [trace result fst snd] in *.
  split; [reflexivity|]. split.
  - apply next_batches_of_step.
  - unfold py_range in Hit. rewrite length_map, length_seq in Hit.
    auto 10.
Qed.

(** ** The startup assertions: which exception *)

(** X4. The startup assertions fail with the exception of the first check
    that fails: a context-parallel size of 0 raises [ZeroDivisionError]
    (the remainder cannot be taken), a sequence length that leaves a
    remainder raises the [SEQ_LEN] assertion whatever the world size is, and
    only then is the world size compared with the product of the sizes. *)
Theorem startup_assertions_errors c e :
  (CP_SIZE c = 0 -> startup_assertions c e = ([], Raise ZeroDivisionError))
  /\ (CP_SIZE c <> 0 -> SEQ_LEN c mod CP_SIZE c <> 0 ->
      startup_assertions c e
      = ([], Raise (AssertionError
           "SEQ_LEN must be divisible by cp_size for Context Parallelism")))
  /\ (CP_SIZE c <> 0 -> SEQ_LEN c mod CP_SIZE c = 0 ->
      WORLD_SIZE e <> TP_SIZE c * PP_SIZE c * DP_SIZE c * CP_SIZE c ->
      startup_assertions c e
      = ([], Raise (AssertionError
           "world_size must be equal to tp_size * pp_size * dp_size * cp_size"))).
Proof.
  unfold startup_assertions, mod_or_raise, py_mod, py_assert.
  split; [|split].
  - intros ->. reflexivity.
  - intros Hc Hm. apply Z.eqb_neq in Hc, Hm. rewrite Hc.
    cbv beta iota delta [bind ret raise]. now rewrite Hm.
  - intros Hc Hm Hw. apply Z.eqb_neq in Hc, Hw. rewrite Hc.
    cbv beta iota delta [bind ret raise]. rewrite Hm, Hw. reflexivity.
Qed.

(** X5. The kernel-mode assertion passes exactly when the fused kernels are
    off ([FLASH_ATTEN] is not ["1"]) or the run is on a GPU with bfloat16;
    when it fails the script stops on it, before the startup assertions and
    before any call, whatever the rest of the configuration. *)
Theorem kernel_assertion_spec c e :
  (kernel_assertion c e = ([], Ok tt)
   <-> FLASH_ATTEN c <> "1"
       \/ (bf16_supported e = true /\ use_cpu c = false))
  /\ (kernel_assertion c e <> ([], Ok tt) ->
      main c e
      = ([], Raise (AssertionError
           "Kernel operations requires dtype=torch.bfloat16"))).
Proof.
  unfold main, kernel_assertion, py_assert.
  destruct (String.eqb_spec (FLASH_ATTEN c) "1") as [Hf|Hf];
    destruct (bf16_supported e), (use_cpu c); cbn; split;
    try (intros H; exfalso; apply H; reflexivity);
    try (intros _; reflexivity);
    try (split; [intros _; tauto | intros _; reflexivity]);
    try (split; [discriminate | intros [H|[H1 H2]]; congruence]).
Qed.

(** ** The training loop: counters, exit, number of iterations *)

Lemma loop_body_ok c e pgm dev tps v v' :
  result (loop_body c e pgm dev tps v) = Ok v' ->
  step v' = step v + 1
  /\ trained_tokens v' = trained_tokens v + tps
  /\ has_reset (lv_model v') = has_reset (lv_model v).
Proof.
  intros H. destruct (loop_body_run c e pgm dev tps v) as [_ Hr].
  destruct (py_mod (step v + 1) (CHECKPOINT_FREQ c)).
  - destruct Hr as (v1 & E & Hs). rewrite E in H. injection H as <-. exact Hs.
  - rewrite Hr in H. discriminate.
Qed.

Lemma loop_body_result c e pgm dev tps v :
  (CHECKPOINT_FREQ c <> 0 ->
   exists v', result (loop_body c e pgm dev tps v) = Ok v')
  /\ (CHECKPOINT_FREQ c = 0 ->
      result (loop_body c e pgm dev tps v) = Raise ZeroDivisionError).
Proof.
  destruct (loop_body_run c e pgm dev tps v) as [_ Hr].
  unfold py_mod in Hr. split; intros H.
  - apply Z.eqb_neq in H. rewrite H in Hr.
    destruct Hr as (v' & E & _). eauto.
  - rewrite H in Hr. exact Hr.
Qed.

(** X6. The counters of the training loop move together: the [k]-th
    iteration of a run starts with the step counter [k] above where the run
    started and with the trained-token count [k * tokens_per_step] above. *)
Theorem training_loop_counters c e pgm dev tps fuel : forall v k vk,
  nth_error (iterations fuel c e pgm dev tps v) k = Some vk ->
  step vk = step v + Z.of_nat k
  /\ trained_tokens vk = trained_tokens v + Z.of_nat k * tps.
Proof.
  induction fuel as [|fuel IH]; intros v k vk H.
  - destruct k; discriminate.
  - cbn [iterations] in H. destruct (loop_guard c v); [|destruct k; discriminate].
    destruct k as [|k]; [injection H as <-; lia|].
    cbn [nth_error] in H.
    destruct (result (loop_body c e pgm dev tps v)) as [v1|x] eqn:E;
      [|destruct k; discriminate].
    apply loop_body_ok in E. destruct E as (Hs & Ht & _).
    destruct (step v1 >=? TOTAL_TRAIN_STEPS c); [destruct k; discriminate|].
    apply IH in H. destruct H as [Hs' Ht']. rewrite Hs', Ht', Hs, Ht. lia.
Qed.

(** X7. The training loop always ends: with the bound of the script on its
    iterations it never stops for lack of them.  When it ends normally, the
    step counter has not gone down and either the token budget is used up or
    the step counter has reached [total_train_steps]; and if it made an
    iteration at all, the token budget is overshot by less than one step. *)
Theorem training_loop_exit c e pgm dev tps fuel : forall v,
  ((iterations_bound c v <= fuel)%nat ->
   result (training_loop fuel c e pgm dev tps v) <> Ok None)
  /\ forall v',
       result (training_loop fuel c e pgm dev tps v) = Ok (Some v') ->
       (loop_guard c v' = false \/ TOTAL_TRAIN_STEPS c <= step v')
       /\ step v <= step v'
       /\ (loop_guard c v = false -> v' = v)
       /\ (forall mt, MAX_TOKENS c = Some mt -> loop_guard c v = true ->
                      trained_tokens v' < mt + tps).
Proof.
  intros v. split; [apply training_loop_terminates|]. revert v.
  induction fuel as [|fuel IH]; intros v v' H; [discriminate|].
  cbn [training_loop] in H. destruct (loop_guard c v) eqn:Hg.
  - rewrite result_bind in H.
    destruct (result (loop_body c e pgm dev tps v)) as [v1|x] eqn:E;
      [|discriminate].
    apply loop_body_ok in E. destruct E as (Hs & Ht & _).
    assert (Hcap : forall mt, MAX_TOKENS c = Some mt ->
                              trained_tokens v1 < mt + tps).
    { intros mt Hmt. unfold loop_guard in Hg. rewrite Hmt in Hg.
      apply Z.ltb_lt in Hg. lia. }
    destruct (step v1 >=? TOTAL_TRAIN_STEPS c) eqn:Hb.
    + injection H as <-. rewrite Z.geb_leb in Hb. apply Z.leb_le in Hb.
      repeat split; auto; try lia; discriminate.
    + apply IH in H. destruct H as (Hex & Hle & Hsame & Hover).
      repeat split; auto; try lia; try discriminate.
      intros mt Hmt _. destruct (loop_guard c v1) eqn:Hg1.
      * now apply Hover.
      * rewrite (Hsame eq_refl). now apply Hcap.
  - injection H as <-. repeat split; auto; try lia; discriminate.
Qed.

(** X8. Without a token budget ([max_tokens] is null) and with a checkpoint
    frequency other than 0, the loop makes [total_train_steps - step]
    iterations, counting from the step it starts at, and one iteration when
    that is not positive: a run resumed at or beyond [total_train_steps]
    still trains for one step. *)
Theorem training_loop_iteration_count c e pgm dev tps fuel : forall v,
  MAX_TOKENS c = None ->
  CHECKPOINT_FREQ c <> 0 ->
  (iterations_bound c v <= fuel)%nat ->
  List.length (iterations fuel c e pgm dev tps v)
  = Z.to_nat (Z.max 1 (TOTAL_TRAIN_STEPS c - step v)).
Proof.
  unfold iterations_bound.
  induction fuel as [|fuel IH]; intros v Hm Hf Hb; [lia|].
  cbn [iterations]. unfold loop_guard. rewrite Hm.
  destruct (proj1 (loop_body_result c e pgm dev tps v) Hf) as [v1 E].
  rewrite E. apply loop_body_ok in E. destruct E as (Hs & _).
  destruct (step v1 >=? TOTAL_TRAIN_STEPS c) eqn:Hge.
  - rewrite Z.geb_leb in Hge. apply Z.leb_le in Hge. cbn [List.length]. lia.
  - rewrite Z.geb_leb in Hge. apply Z.leb_gt in Hge.
    cbn [List.length]. rewrite IH by (auto; lia). lia.
Qed.

(** X9. With a checkpoint frequency of 0 the first iteration raises
    [ZeroDivisionError] at the checkpoint test, after the optimizer step has
    been made: the loop stops there, nothing is saved, and the script ends
    without destroying the process group. *)
Theorem zero_checkpoint_frequency c e pgm dev tps fuel v :
  CHECKPOINT_FREQ c = 0 ->
  loop_guard c v = true ->
  training_loop (S fuel) c e pgm dev tps v
  = (iteration_events c pgm dev tps v, Raise ZeroDivisionError)
  /\ In EvOptimizerStep (iteration_events c pgm dev tps v)
  /\ filter is_save (iteration_events c pgm dev tps v) = []
  /\ forall s,
       su_pgm s = pgm -> su_device s = dev -> su_tokens_per_step s = tps ->
       result (restore c (su_model s) (su_loader s) (su_optimizer s)) = Ok v ->
       result (train c e s) = Raise ZeroDivisionError
       /\ ~ In EvDestroyProcessGroup (trace (train c e s)).
Proof.
  intros Hf Hg.
  destruct (loop_body_run c e pgm dev tps v) as [Ht _].
  pose proof (proj2 (loop_body_result c e pgm dev tps v) Hf) as Hr.
  assert (Hloop : forall n, training_loop (S n) c e pgm dev tps v
                  = (iteration_events c pgm dev tps v, Raise ZeroDivisionError)).
  { intros n. cbn [training_loop]. rewrite Hg.
    destruct (loop_body c e pgm dev tps v) as [t [v1|x]];
      cbn [trace result fst snd] in *; [discriminate|].
    subst t. injection Hr as ->. reflexivity. }
  assert (Hsave : filter is_save (iteration_events c pgm dev tps v) = []).
  { rewrite filter_iteration_events
      by (try reflexivity; intros ev; destruct ev; cbn; congruence).
    unfold reset_events, log_events, save_events, py_mod. rewrite Hf.
    destruct (has_reset (lv_model v)), (is_wandb_rank pgm), (USE_WANDB c);
      reflexivity. }
  split; [apply Hloop|]. split; [|split; [exact Hsave|]].
  - apply in_iteration_events. do 3 right. now left.
  - intros s <- <- <- Hres.
    destruct (restore c (su_model s) (su_loader s) (su_optimizer s))
      as [tl [v0|x]] eqn:Erest; cbn [result snd] in Hres; [|discriminate].
    injection Hres as ->.
    destruct (restore_run c (su_model s) (su_loader s) (su_optimizer s))
      as (v1 & E1 & _). rewrite Erest in E1. injection E1 as -> <-.
    assert (Htrain : train c e s
                     = (load_events c
                        ++ EvBarrier
                        :: iteration_events c (su_pgm s) (su_device s)
                             (su_tokens_per_step s) v,
                        Raise ZeroDivisionError)).
    { unfold train. rewrite Erest. cbn [bind emit]. unfold iterations_bound.
      rewrite Hloop. reflexivity. }
    rewrite Htrain. split; [reflexivity|].
    cbn [trace fst]. rewrite in_app_iff. cbn [In].
    intros [H|[H|H]].
    + unfold load_events in H. destruct (truthy_path (LOAD_PATH c));
        [destruct H as [H|[]]; discriminate | destruct H].
    + discriminate.
    + apply in_iteration_events in H.
      destruct H as [H|[H|[H|[H|[H|[H|H]]]]]]; try discriminate.
      * pose proof (step_events_are_step_events (su_pgm s)
                      (set_grad (lv_model v) (zero_grad (grad (lv_model v))))
                      (lv_loader v)) as Hs.
        rewrite Forall_forall in Hs. apply Hs in H. discriminate.
      * unfold reset_events in H. destruct (has_reset (lv_model v));
          [destruct H as [H|[]]; discriminate | destruct H].
      * unfold log_events in H. destruct (is_wandb_rank (su_pgm s));
          [|destruct H]. destruct H as [H|H]; [discriminate|].
        destruct (USE_WANDB c); [destruct H as [H|[]]; discriminate|destruct H].
      * unfold save_events in H.
        destruct (py_mod (step v + 1) (CHECKPOINT_FREQ c)) as [x|];
          [destruct (x =? 0)|]; cbn in H; intuition discriminate.
Qed.

(** ** Checkpoint paths *)

Lemma append_inj_r a x y : String.append a x = String.append a y -> x = y.
Proof.
  induction a as [|ch a IH]; cbn; intros H; [exact H|].
  injection H as H. exact (IH H).
Qed.

Lemma to_int_not_nil z :
  Z.to_int z <> Decimal.Pos Decimal.Nil /\ Z.to_int z <> Decimal.Neg Decimal.Nil.
Proof.
  destruct z; cbn; split; try discriminate; intros H; injection H as H;
    exact (DecimalPos.Unsigned.to_uint_nonnil _ H).
Qed.

Lemma py_str_inj a b : py_str a = py_str b -> a = b.
Proof.
  unfold py_str. intros H. apply DecimalZ.to_int_inj.
  destruct (to_int_not_nil a) as [Ha1 Ha2].
  destruct (to_int_not_nil b) as [Hb1 Hb2].
  pose proof (NilZero.isi (Z.to_int a) Ha1 Ha2) as Ia.
  pose proof (NilZero.isi (Z.to_int b) Hb1 Hb2) as Ib.
  rewrite H in Ia. congruence.
Qed.

Lemma in_save_iteration c pgm dev tps v s tok path :
  In (EvSaveCheckpoint s tok path) (iteration_events c pgm dev tps v) ->
  s = step v + 1 /\ tok = trained_tokens v + tps
  /\ path = checkpoint_path c (step v + 1).
Proof.
  rewrite in_iteration_events.
  intros [H|[H|[H|[H|[H|[H|H]]]]]]; try discriminate.
  - pose proof (step_events_are_step_events pgm
                  (set_grad (lv_model v) (zero_grad (grad (lv_model v))))
                  (lv_loader v)) as Hs.
    rewrite Forall_forall in Hs. apply Hs in H. discriminate.
  - unfold reset_events in H. destruct (has_reset (lv_model v));
      [destruct H as [H|[]]; discriminate | destruct H].
  - unfold log_events in H. destruct (is_wandb_rank pgm); [|destruct H].
    destruct H as [H|H]; [discriminate|].
    destruct (USE_WANDB c); [destruct H as [H|[]]; discriminate | destruct H].
  - unfold save_events in H.
    destruct (py_mod (step v + 1) (CHECKPOINT_FREQ c)) as [x|];
      [destruct (x =? 0)|]; cbn in H; try tauto.
    destruct H as [H|[]]. injection H as <- <- <-. auto.
Qed.

(** X10. The path a checkpoint is saved under determines the step: two
    iterations that save under the same path are at the same step, so within
    a run, where every iteration has a step of its own, no checkpoint is
    written over another. *)
Theorem checkpoint_paths_distinct c e pgm dev tps v1 v2 s1 t1 s2 t2 path :
  In (EvSaveCheckpoint s1 t1 path) (trace (loop_body c e pgm dev tps v1)) ->
  In (EvSaveCheckpoint s2 t2 path) (trace (loop_body c e pgm dev tps v2)) ->
  s1 = s2 /\ step v1 = step v2.
Proof.
  destruct (loop_body_run c e pgm dev tps v1) as [-> _].
  destruct (loop_body_run c e pgm dev tps v2) as [-> _].
  intros H1 H2. apply in_save_iteration in H1, H2.
  destruct H1 as (-> & _ & Hp1). destruct H2 as (-> & _ & Hp2).
  rewrite Hp1 in Hp2. unfold checkpoint_path in Hp2.
  apply append_inj_r, append_inj_r, py_str_inj in Hp2. lia.
Qed.

(** ** The two paths of the training step *)

Lemma filter_none (f : event -> bool) l :
  (forall ev, In ev l -> f ev = false) -> filter f l = [].
Proof.
  induction l as [|a l IH]; intros H; [reflexivity|].
  cbn. rewrite (H a) by now left. apply IH. intros ev Hin. apply H. now right.
Qed.

(** X11. With pipeline parallelism on ([pp_world_size > 1]) an iteration
    makes the one call of the pipelined step and nothing of [train_step]: the
    driver itself fetches no batch and does not touch the sync flag.  Without
    it, the pipelined step is not called and the iteration fetches its
    [grad_acc] batches itself. *)
Theorem pipeline_path_skips_train_step c e pgm dev tps v :
  let t := trace (loop_body c e pgm dev tps v) in
  (pp_world_size pgm > 1 -> filter is_step_event t = [EvPipelineStep])
  /\ (pp_world_size pgm <= 1 ->
      filter is_pipeline_step t = []
      /\ filter is_next_batch t
         = map EvNextBatch (py_range (grad_acc (lv_loader v)))).
Proof.
  intros t. destruct (loop_body_run c e pgm dev tps v) as [Ht _].
  subst t. rewrite Ht. clear Ht. unfold iteration_events.
  set (m0 := set_grad (lv_model v) (zero_grad (grad (lv_model v)))).
  assert (Hrest : forall f,
            (forall ev, is_step_event ev = false -> f ev = false) ->
            filter f (reset_events (has_reset (lv_model v))
                      ++ log_events c pgm (step_report pgm dev tps v)
                      ++ save_events c (step v + 1) (trained_tokens v + tps))
            = []).
  { intros f Hf. apply filter_none. intros ev Hin. apply Hf.
    exact (proj1 (not_step_event_after c pgm (lv_model v)
                    (step_report pgm dev tps v) (trained_tokens v + tps)
                    ev Hin)). }
  split.
  - intros Hpp. cbn [filter is_step_event]. rewrite filter_app.
    cbn [filter is_step_event]. rewrite Hrest by auto. unfold step_events.
    replace (pp_world_size pgm >? 1) with true
      by (symmetry; apply Z.gtb_lt; lia). reflexivity.
  - intros Hpp. unfold step_events.
    replace (pp_world_size pgm >? 1) with false
      by (symmetry; rewrite Z.gtb_ltb; apply Z.ltb_ge; lia).
    split.
    + cbn [filter is_pipeline_step]. rewrite filter_app.
      cbn [filter is_pipeline_step].
      rewrite Hrest by (intros ev; destruct ev; cbn; congruence).
      rewrite app_nil_r. apply filter_none. intros ev Hin.
      apply in_flat_map in Hin. destruct Hin as (i & _ & Hin).
      unfold micro_batch_events in Hin.
      destruct (cp_dp_world_size pgm >? 1); cbn in Hin;
        intuition (subst; reflexivity).
    + cbn [filter is_next_batch]. rewrite filter_app.
      cbn [filter is_next_batch].
      rewrite Hrest by (intros ev; destruct ev; cbn; congruence).
      rewrite app_nil_r. apply next_batches_of_step.
Qed.

(** ** The script as a whole *)

Lemma startup_assertions_cases c e :
  startup_assertions c e = ([], Ok tt)
  \/ exists x, startup_assertions c e = ([], Raise x).
Proof.
  unfold startup_assertions, mod_or_raise, py_assert.
  destruct (py_mod (SEQ_LEN c) (CP_SIZE c)) as [r|];
    cbv beta iota delta [bind ret raise];
    [|right; eexists; reflexivity].
  destruct (r =? 0); [|right; eexists; reflexivity].
  destruct (WORLD_SIZE e =? TP_SIZE c * PP_SIZE c * DP_SIZE c * CP_SIZE c);
    [left; reflexivity | right; eexists; reflexivity].
Qed.

Lemma main_cases c e :
  (exists x, main c e = ([], Raise x))
  \/ main c e = bind (setup c e) (train c e).
Proof.
  assert (Hk : kernel_assertion c e = ([], Ok tt)
               \/ exists x, kernel_assertion c e = ([], Raise x)).
  { unfold kernel_assertion, py_assert.
    destruct ((is_bfloat16 _ && _) || _);
      [left; reflexivity | right; eexists; reflexivity]. }
  destruct Hk as [Hk|[x Hk]].
  - destruct (startup_assertions_cases c e) as [Hs|[x Hs]].
    + right. exact (main_run c e Hk Hs).
    + left. exists x. unfold main. rewrite Hk. cbn [bind]. rewrite Hs.
      reflexivity.
  - left. exists x. unfold main. rewrite Hk. reflexivity.
Qed.

Lemma setup_wandb c e :
  exists t s,
    setup c e = (t, Ok s)
    /\ su_pgm s
       = setup_process_group_manager (TP_SIZE c) (CP_SIZE c) (PP_SIZE c)
           (DP_SIZE c) (LOCAL_RANK e) (WORLD_SIZE e)
    /\ (is_wandb_rank (su_pgm s) && USE_WANDB c = true -> In EvWandbInit t)
    /\ filter is_wandb_use t = []
    /\ ~ In EvDestroyProcessGroup t.
Proof.
  unfold setup, wrap_if, when.
  set (pgm := setup_process_group_manager (TP_SIZE c) (CP_SIZE c) (PP_SIZE c)
                (DP_SIZE c) (LOCAL_RANK e) (WORLD_SIZE e)).
  destruct (global_rank pgm =? 0), (is_wandb_rank pgm && USE_WANDB c) eqn:Hw,
    (tp_world_size pgm >? 1), (pp_world_size pgm >? 1),
    (cp_dp_world_size pgm >? 1);
    cbn; eexists _, _; (split; [reflexivity|]); cbn [su_pgm];
    (split; [reflexivity|]); fold pgm; rewrite Hw;
    (split;
     [ first [discriminate | intros _; cbn; tauto]
     | split; [reflexivity | cbn; intuition discriminate] ]).
Qed.

Lemma train_run c e s :
  exists v0,
    let loop := training_loop (iterations_bound c v0) c e (su_pgm s)
                  (su_device s) (su_tokens_per_step s) v0 in
    train c e s
    = (load_events c
       ++ EvBarrier
       :: trace loop
       ++ match result loop with
          | Ok _ => (if is_wandb_rank (su_pgm s) && USE_WANDB c
                     then [EvWandbFinish] else [])
                    ++ [EvDestroyProcessGroup]
          | Raise _ => []
          end,
       match result loop with
       | Ok _ => Ok tt
       | Raise x => Raise x
       end).
Proof.
  destruct (restore_run c (su_model s) (su_loader s) (su_optimizer s))
    as (v0 & E & _).
  exists v0. unfold train. rewrite E. cbn [bind emit].
  destruct (training_loop (iterations_bound c v0) c e (su_pgm s)
              (su_device s) (su_tokens_per_step s) v0) as [tl [r|x]];
    cbn [trace result fst snd bind app];
    [|now rewrite app_nil_r].
  destruct (is_wandb_rank (su_pgm s) && USE_WANDB c); reflexivity.
Qed.

Lemma iteration_event_kinds c pgm dev tps v ev :
  In ev (iteration_events c pgm dev tps v) ->
  ev <> EvDestroyProcessGroup
  /\ (is_wandb_use ev = true -> is_wandb_rank pgm && USE_WANDB c = true).
Proof.
  rewrite in_iteration_events.
  intros [H|[H|[H|[H|[H|[H|H]]]]]]; subst;
    try (split; [discriminate | intros Hu; discriminate]).
  - pose proof (step_events_are_step_events pgm
                  (set_grad (lv_model v) (zero_grad (grad (lv_model v))))
                  (lv_loader v)) as Hs.
    rewrite Forall_forall in Hs. apply Hs in H.
    destruct ev; try discriminate; split; discriminate.
  - unfold reset_events in H. destruct (has_reset (lv_model v));
      [destruct H as [<-|[]] | destruct H]. split; discriminate.
  - unfold log_events in H. destruct (is_wandb_rank pgm); [|destruct H].
    destruct H as [<-|H]; [split; discriminate|].
    destruct (USE_WANDB c); [|destruct H].
    destruct H as [<-|[]]. split; [discriminate | reflexivity].
  - unfold save_events in H.
    destruct (py_mod (step v + 1) (CHECKPOINT_FREQ c)) as [x|];
      [destruct (x =? 0)|]; cbn in H; try tauto.
    destruct H as [<-|[]]. split; discriminate.
Qed.

Lemma loop_event_kinds c e pgm dev tps fuel v ev :
  In ev (trace (training_loop fuel c e pgm dev tps v)) ->
  ev <> EvDestroyProcessGroup
  /\ (is_wandb_use ev = true -> is_wandb_rank pgm && USE_WANDB c = true).
Proof.
  rewrite training_loop_trace, in_flat_map. intros (u & _ & H).
  exact (iteration_event_kinds H).
Qed.

Lemma setup_wandb_once c e t s :
  setup c e = (t, Ok s) ->
  is_wandb_rank (su_pgm s) && USE_WANDB c = true ->
  filter is_wandb_init t = [EvWandbInit].
Proof.
  unfold setup, wrap_if, when.
  set (pgm := setup_process_group_manager (TP_SIZE c) (CP_SIZE c) (PP_SIZE c)
                (DP_SIZE c) (LOCAL_RANK e) (WORLD_SIZE e)).
  destruct (global_rank pgm =? 0), (is_wandb_rank pgm && USE_WANDB c) eqn:Hw,
    (tp_world_size pgm >? 1), (pp_world_size pgm >? 1),
    (cp_dp_world_size pgm >? 1);
    cbn; intros E; injection E as <- <-; cbn [su_pgm]; fold pgm;
    rewrite Hw; intros H; first [discriminate H | reflexivity].
Qed.

Lemma iteration_never_inits c pgm dev tps v ev :
  In ev (iteration_events c pgm dev tps v) -> is_wandb_init ev = false.
Proof.
  rewrite in_iteration_events.
  intros [H|[H|[H|[H|[H|[H|H]]]]]]; subst; try reflexivity.
  - pose proof (step_events_are_step_events pgm
                  (set_grad (lv_model v) (zero_grad (grad (lv_model v))))
                  (lv_loader v)) as Hs.
    rewrite Forall_forall in Hs. apply Hs in H.
    destruct ev; try discriminate; reflexivity.
  - unfold reset_events in H. destruct (has_reset (lv_model v));
      [destruct H as [<-|[]] | destruct H]. reflexivity.
  - unfold log_events in H. destruct (is_wandb_rank pgm); [|destruct H].
    destruct H as [<-|H]; [reflexivity|].
    destruct (USE_WANDB c); [|destruct H].
    destruct H as [<-|[]]. reflexivity.
  - unfold save_events in H.
    destruct (py_mod (step v + 1) (CHECKPOINT_FREQ c)) as [x|];
      [destruct (x =? 0)|]; cbn in H; try tauto.
    destruct H as [<-|[]]. reflexivity.
Qed.

Lemma train_never_inits c e s :
  filter is_wandb_init (trace (train c e s)) = [].
Proof.
  apply filter_none. intros ev Hin.
  destruct (train_run c e s) as (v0 & Htrain). cbv zeta in Htrain.
  rewrite Htrain in Hin. cbn [trace fst] in Hin.
  apply in_app_or in Hin. destruct Hin as [Hin|Hin].
  - unfold load_events in Hin. destruct (truthy_path (LOAD_PATH c));
      [destruct Hin as [<-|[]]; reflexivity | destruct Hin].
  - destruct Hin as [<-|Hin]; [reflexivity|].
    apply in_app_or in Hin. destruct Hin as [Hin|Hin].
    + rewrite training_loop_trace, in_flat_map in Hin.
      destruct Hin as (u & _ & H). exact (iteration_never_inits H).
    + destruct (result (training_loop _ _ _ _ _ _ _)); [|destruct Hin].
      apply in_app_or in Hin. destruct Hin as [Hin|Hin].
      * destruct (is_wandb_rank (su_pgm s) && USE_WANDB c);
          [destruct Hin as [<-|[]]; reflexivity | destruct Hin].
      * destruct Hin as [<-|[]]. reflexivity.
Qed.

Lemma train_uses_wandb c e s ev :
  In ev (trace (train c e s)) ->
  is_wandb_use ev = true ->
  is_wandb_rank (su_pgm s) && USE_WANDB c = true.
Proof.
  destruct (train_run c e s) as (v0 & Htrain). cbv zeta in Htrain.
  rewrite Htrain. cbn [trace fst]. intros Hin Hev.
  apply in_app_or in Hin. destruct Hin as [Hin|Hin].
  - unfold load_events in Hin. destruct (truthy_path (LOAD_PATH c));
      [destruct Hin as [<-|[]]; discriminate | destruct Hin].
  - destruct Hin as [<-|Hin]; [discriminate|].
    apply in_app_or in Hin. destruct Hin as [Hin|Hin].
    + apply loop_event_kinds in Hin. exact (proj2 Hin Hev).
    + destruct (result (training_loop _ _ _ _ _ _ _)); [|destruct Hin].
      destruct (is_wandb_rank (su_pgm s) && USE_WANDB c); [reflexivity|].
      destruct Hin as [<-|[]]. discriminate.
Qed.

Lemma split_past_prefix (f : event -> bool) l1 l2 pre ev post :
  l1 ++ l2 = pre ++ ev :: post ->
  f ev = true ->
  filter f l1 = [] ->
  exists rest, pre = l1 ++ rest /\ l2 = rest ++ ev :: post.
Proof.
  revert pre. induction l1 as [|a l1 IH]; intros pre E Hev Hf.
  - exists pre. split; [reflexivity | exact E].
  - cbn in Hf. destruct (f a) eqn:Ha; [discriminate|].
    destruct pre as [|b pre]; cbn in E; injection E as Hab E.
    + congruence.
    + destruct (IH pre E Hev Hf) as (rest & Hp & Hl).
      exists rest. split; [cbn; congruence | exact Hl].
Qed.

(** X12. The script never uses the metrics service before having
    initialised it.  Take any call of a run that logs metrics or finishes the
    metrics session, and the calls made before it: they start with the whole
    setup, the setup has initialised the service, exactly once, and used it
    nowhere, and no later call initialises it again.  Such a call is made only
    on the reporting rank with the service switched on. *)
Theorem wandb_calls_need_init c e pre ev post :
  trace (main c e) = pre ++ ev :: post ->
  is_wandb_use ev = true ->
  exists t s rest,
    setup c e = (t, Ok s)
    /\ pre = t ++ rest
    /\ filter is_wandb_init t = [EvWandbInit]
    /\ filter is_wandb_use t = []
    /\ filter is_wandb_init (rest ++ ev :: post) = []
    /\ is_wandb_rank (su_pgm s) && USE_WANDB c = true.
Proof.
  destruct (main_cases c e) as [[x ->] | ->].
  { intros E. destruct pre; discriminate E. }
  destruct (setup_wandb c e) as (t & s & E & _ & _ & Huse & _).
  rewrite trace_bind, E. cbn [trace result fst snd].
  intros Hsplit Hev.
  destruct (@split_past_prefix is_wandb_use _ _ _ _ _ Hsplit Hev Huse)
    as (rest & Hpre & Htrain).
  assert (Hw : is_wandb_rank (su_pgm s) && USE_WANDB c = true).
  { apply (@train_uses_wandb c e s ev); [|exact Hev].
    rewrite Htrain. apply in_or_app. right. now left. }
  exists t, s, rest.
  split; [reflexivity|]. split; [exact Hpre|].
  split; [exact (@setup_wandb_once c e t s E Hw)|]. split; [exact Huse|].
  split; [|exact Hw].
  rewrite <- Htrain. apply train_never_inits.
Qed.

(** X13. The process group is destroyed exactly when the script ends without
    an exception, and then as its last call: a run that fails an assertion or
    raises inside the training loop leaves it as it is. *)
Theorem process_group_destroyed c e :
  (result (main c e) = Ok tt
   <-> In EvDestroyProcessGroup (trace (main c e)))
  /\ (result (main c e) = Ok tt ->
      exists t, trace (main c e) = t ++ [EvDestroyProcessGroup]).
Proof.
  destruct (main_cases c e) as [[x ->] | ->].
  { cbn. split; [split; [discriminate | intros []] | discriminate]. }
  destruct (setup_wandb c e) as (t & s & E & _ & _ & _ & Hd).
  rewrite trace_bind, result_bind, E. cbn [trace result fst snd].
  destruct (train_run c e s) as (v0 & Htrain). cbv zeta in Htrain.
  rewrite Htrain. cbn [trace result fst snd].
  destruct (result (training_loop (iterations_bound c v0) c e (su_pgm s)
                      (su_device s) (su_tokens_per_step s) v0))
    as [r|x] eqn:Er.
  - split; [split; intros _; [|reflexivity]|intros _].
    + apply in_or_app. right. apply in_or_app. right. right.
      apply in_or_app. right. apply in_or_app. right. now left.
    + exists (t ++ load_events c
              ++ EvBarrier
              :: trace (training_loop (iterations_bound c v0) c e (su_pgm s)
                          (su_device s) (su_tokens_per_step s) v0)
              ++ (if is_wandb_rank (su_pgm s) && USE_WANDB c
                  then [EvWandbFinish] else [])).
      repeat (rewrite <- app_assoc || rewrite <- app_comm_cons).
      reflexivity.
  - split; [split; [discriminate|]|discriminate].
    intros Hin. exfalso. apply in_app_or in Hin. destruct Hin as [Hin|Hin];
      [exact (Hd Hin)|].
    apply in_app_or in Hin. destruct Hin as [Hin|Hin].
    + unfold load_events in Hin. destruct (truthy_path (LOAD_PATH c));
        [destruct Hin as [Hin|[]]; discriminate | destruct Hin].
    + destruct Hin as [Hin|Hin]; [discriminate|].
      rewrite app_nil_r in Hin.
      apply loop_event_kinds in Hin. exact (proj1 Hin eq_refl).
Qed.

End DriverCoverage.

Lemma train_step_without_sync_witness :
  backward_calls
    (trace (@train_step toy_torch (toy_pgm 1 1 1 1 0 1) toy_model
              (toy_loader 2) true))
  = [(0, None); (1, None)].
Proof.
  destruct (@train_step_without_sync toy_torch (toy_pgm 1 1 1 1 0 1)
              toy_model (toy_loader 2) true) as (_ & H & _).
  - cbn. lia.
  - exact H.
Defined.

Lemma train_step_leaves_sync_enabled_witness :
  exists v,
    result (@train_step toy_torch (toy_pgm 1 1 1 2 0 2) toy_model
              (toy_loader 3) true) = Ok v
    /\ require_backward_grad_sync (model v) = Some true.
Proof.
  apply (@train_step_leaves_sync_enabled toy_torch (toy_pgm 1 1 1 2 0 2)
           toy_model (toy_loader 3) true); reflexivity.
Defined.

Lemma startup_assertions_errors_witness :
  @startup_assertions toy_torch
    {| SEQ_LEN := 8; MAX_TOKENS := None; TOTAL_TRAIN_STEPS := 4;
       GRAD_ACC := 3; USE_WANDB := true; TP_SIZE := 1; PP_SIZE := 1;
       DP_SIZE := 2; CP_SIZE := 0; LOAD_PATH := None;
       CHECKPOINT_DIR := "ckpt"; CHECKPOINT_FREQ := 2; use_cpu := true;
       FLASH_ATTEN := "0" |} toy_environ
  = ([], Raise ZeroDivisionError)
  /\ @startup_assertions toy_torch toy_config_cp3 toy_environ
     = ([], Raise (AssertionError
          "SEQ_LEN must be divisible by cp_size for Context Parallelism")).
Proof.
  split.
  - apply (@startup_assertions_errors toy_torch). reflexivity.
  - apply (@startup_assertions_errors toy_torch toy_config_cp3 toy_environ);
      cbn; discriminate.
Defined.

Lemma kernel_assertion_spec_witness :
  @main toy_torch toy_runtime toy_config_flash toy_environ
  = ([], Raise (AssertionError
       "Kernel operations requires dtype=torch.bfloat16")).
Proof.
  apply (@kernel_assertion_spec toy_torch toy_runtime toy_config_flash
           toy_environ).
  discriminate.
Defined.

Lemma training_loop_counters_witness :
  exists vk,
    nth_error (@iterations toy_torch toy_runtime 5 toy_config toy_environ
                 (toy_pgm 1 1 1 2 0 2) true 24 (toy_vars 0 0 true)) 2
    = Some vk
    /\ step vk = 2 /\ trained_tokens vk = 48.
Proof.
  destruct (nth_error (@iterations toy_torch toy_runtime 5 toy_config
                         toy_environ (toy_pgm 1 1 1 2 0 2) true 24
                         (toy_vars 0 0 true)) 2) as [vk|] eqn:E.
  - exists vk. split; [reflexivity|].
    exact (@training_loop_counters toy_torch toy_runtime toy_config
             toy_environ (toy_pgm 1 1 1 2 0 2) true 24 5
             (toy_vars 0 0 true) 2 vk E).
  - vm_compute in E. discriminate.
Defined.

Lemma training_loop_exit_witness :
  exists v',
    result (@training_loop toy_torch toy_runtime 11 toy_config_budget
              toy_environ (toy_pgm 1 1 1 2 0 2) true 24 (toy_vars 0 0 true))
    = Ok (Some v')
    /\ trained_tokens v' < 60 + 24.
Proof.
  destruct (result (@training_loop toy_torch toy_runtime 11 toy_config_budget
                      toy_environ (toy_pgm 1 1 1 2 0 2) true 24
                      (toy_vars 0 0 true))) as [[v'|]|x] eqn:E.
  - exists v'. split; [reflexivity|].
    destruct (@training_loop_exit toy_torch toy_runtime toy_config_budget
                toy_environ (toy_pgm 1 1 1 2 0 2) true 24 11
                (toy_vars 0 0 true)) as [_ H].
    destruct (H v' E) as (_ & _ & _ & Hover).
    exact (Hover 60 eq_refl eq_refl).
  - vm_compute in E. discriminate.
  - vm_compute in E. discriminate.
Defined.

Lemma training_loop_iteration_count_witness :
  List.length (@iterations toy_torch toy_runtime 1 toy_config toy_environ
                 (toy_pgm 1 1 1 2 0 2) true 24 (toy_vars 150 3600 true))
  = 1%nat.
Proof.
  apply (@training_loop_iteration_count toy_torch toy_runtime toy_config
           toy_environ (toy_pgm 1 1 1 2 0 2) true 24 1
           (toy_vars 150 3600 true)).
  - reflexivity.
  - discriminate.
  - vm_compute. apply le_n.
Defined.

Lemma zero_checkpoint_frequency_witness :
  result (@training_loop toy_torch toy_runtime 5 toy_config_freq0 toy_environ
            (toy_pgm 1 1 1 2 0 2) true 24 (toy_vars 0 0 true))
  = Raise ZeroDivisionError.
Proof.
  destruct (@zero_checkpoint_frequency toy_torch toy_runtime toy_config_freq0
              toy_environ (toy_pgm 1 1 1 2 0 2) true 24 4
              (toy_vars 0 0 true) eq_refl eq_refl) as [H _].
  rewrite H. reflexivity.
Defined.

Lemma checkpoint_paths_distinct_witness :
  In (EvSaveCheckpoint 2 48 "ckpt/2")
     (trace (@loop_body toy_torch toy_runtime toy_config toy_environ
               (toy_pgm 1 1 1 2 0 2) true 24 (toy_vars 1 24 true)))
  /\ (2 = 2 /\ step (toy_vars 1 24 true) = step (toy_vars 1 24 false)).
Proof.
  assert (H1 : In (EvSaveCheckpoint 2 48 "ckpt/2")
                 (filter is_save
                    (trace (@loop_body toy_torch toy_runtime toy_config
                              toy_environ (toy_pgm 1 1 1 2 0 2) true 24
                              (toy_vars 1 24 true))))).
  { vm_compute. left. reflexivity. }
  assert (H2 : In (EvSaveCheckpoint 2 48 "ckpt/2")
                 (filter is_save
                    (trace (@loop_body toy_torch toy_runtime toy_config
                              toy_environ (toy_pgm 1 1 1 2 0 2) true 24
                              (toy_vars 1 24 false))))).
  { vm_compute. left. reflexivity. }
  pose proof (proj1 (proj1 (filter_In _ _ _) H1)) as I1.
  pose proof (proj1 (proj1 (filter_In _ _ _) H2)) as I2.
  split; [exact I1|].
  exact (@checkpoint_paths_distinct toy_torch toy_runtime toy_config
           toy_environ (toy_pgm 1 1 1 2 0 2) true 24 (toy_vars 1 24 true)
           (toy_vars 1 24 false) 2 48 2 48 "ckpt/2" I1 I2).
Defined.

Lemma pipeline_path_skips_train_step_witness :
  filter is_step_event
    (trace (@loop_body toy_torch toy_runtime toy_config toy_environ
              (toy_pgm 1 1 2 1 1 2) true 24 (toy_vars 0 0 false)))
  = [EvPipelineStep].
Proof.
  destruct (@pipeline_path_skips_train_step toy_torch toy_runtime toy_config
              toy_environ (toy_pgm 1 1 2 1 1 2) true 24 (toy_vars 0 0 false))
    as [H _].
  exact (H eq_refl).
Defined.

Lemma wandb_calls_need_init_witness :
  exists t rest,
    removelast (removelast
      (trace (@main toy_torch toy_runtime toy_config toy_environ)))
    = t ++ rest
    /\ filter (@is_wandb_init toy_torch) t = [EvWandbInit]
    /\ filter (@is_wandb_init toy_torch)
         (rest ++ [EvWandbFinish; EvDestroyProcessGroup]) = [].
Proof.
  assert (H : trace (@main toy_torch toy_runtime toy_config toy_environ)
              = removelast (removelast
                  (trace (@main toy_torch toy_runtime toy_config toy_environ)))
                ++ [EvWandbFinish; EvDestroyProcessGroup])
    by (vm_compute; reflexivity).
  destruct (@wandb_calls_need_init toy_torch toy_runtime toy_config
              toy_environ _ EvWandbFinish [EvDestroyProcessGroup] H eq_refl)
    as (t & s & rest & _ & Hpre & Hinit & _ & Hlater & _).
  exists t, rest. split; [exact Hpre|]. split; [exact Hinit | exact Hlater].
Defined.

Lemma process_group_destroyed_witness :
  exists t,
    trace (@main toy_torch toy_runtime toy_config toy_environ)
    = t ++ [EvDestroyProcessGroup].
Proof.
  destruct (@process_group_destroyed toy_torch toy_runtime toy_config
              toy_environ) as [_ H].
  apply H. vm_compute. reflexivity.
Defined.
